(** * Crocdb API: search-key normalisation, query planning and lookups

    A shallow embedding of [api.py].  Python strings are sequences of
    Unicode code points and are modelled as [list N]; Python integers are
    unbounded and are modelled as [Z].  Code that can raise is written in a
    small error monad over the exception classes that [handle_exception]
    tells apart. *)

From Stdlib Require Import List NArith ZArith String Ascii Bool Lia Permutation.
Import ListNotations.

Local Open Scope N_scope.

(** ** Python strings *)

Definition str := list N.

(** An ASCII literal read as a Python string. *)
Definition py (s : string) : str := map N_of_ascii (list_ascii_of_string s).

Definition str_eqb (a b : str) : bool :=
  if list_eq_dec N.eq_dec a b then true else false.

Module PyStr.

(** [str.isspace] for one code point: the white-space table of CPython. *)
Definition is_space (c : N) : bool :=
  ((9 <=? c) && (c <=? 13)) || ((28 <=? c) && (c <=? 32))
  || (c =? 133) || (c =? 160) || (c =? 5760)
  || ((8192 <=? c) && (c <=? 8202))
  || (c =? 8232) || (c =? 8233) || (c =? 8239) || (c =? 8287)
  || (c =? 12288).

Fixpoint lstrip (s : str) : str :=
  match s with
  | [] => []
  | c :: s' => if is_space c then lstrip s' else s
  end.

Definition rstrip (s : str) : str := rev (lstrip (rev s)).

(** [s.strip()] *)
Definition strip (s : str) : str := rstrip (lstrip s).

(** [s.split()]: the maximal runs of non-space characters.  [cur] holds
    the characters of the token being read, last one first. *)
Fixpoint split_from (cur : str) (s : str) : list str :=
  match s with
  | [] => match cur with [] => [] | _ => [rev cur] end
  | c :: s' =>
      if is_space c
      then match cur with
           | [] => split_from [] s'
           | _ => rev cur :: split_from [] s'
           end
      else split_from (c :: cur) s'
  end.

Definition split (s : str) : list str := split_from [] s.

(** [s.replace(old, new)] where [old] is a single character, which is
    the only way the module calls it. *)
Definition replace (old : N) (new : str) (s : str) : str :=
  flat_map (fun c => if c =? old then new else [c]) s.

(** [sep.join(parts)] *)
Fixpoint join (sep : str) (parts : list str) : str :=
  match parts with
  | [] => []
  | [p] => p
  | p :: rest => p ++ sep ++ join sep rest
  end.

Definition is_ascii (c : N) : bool := c <? 128.

Definition is_upper (c : N) : bool := (65 <=? c) && (c <=? 90).

(** The class [a-z0-9] of the regular expression in
    [create_db_search_key]. *)
Definition is_lower_alnum (c : N) : bool :=
  ((97 <=? c) && (c <=? 122)) || ((48 <=? c) && (c <=? 57)).

(** [re.sub(c+, c, s)]: every run of [c] shrinks to one [c].  A [c] that
    is followed by another [c] is dropped, the last of a run stays. *)
Fixpoint squeeze (c : N) (s : str) : str :=
  match s with
  | [] => []
  | x :: s' =>
      if (x =? c) && match s' with y :: _ => y =? c | [] => false end
      then squeeze c s'
      else x :: squeeze c s'
  end.

End PyStr.

(** ** TextNormalizer *)

Section Normalizer.

(** [unidecode] is a third-party table: what it gives for each non-ASCII
    code point is a parameter.  So is [str.lower] outside ASCII. *)
Variable unidecode_table : N -> str.
Variable lower_nonascii : N -> str.

(** [unidecode(s)]: ASCII passes through, anything else is looked up. *)
Definition unidecode (s : str) : str :=
  flat_map (fun c => if PyStr.is_ascii c then [c] else unidecode_table c) s.

(** [s.lower()] *)
Definition lower (s : str) : str :=
  flat_map (fun c =>
              if PyStr.is_upper c then [c + 32]
              else if PyStr.is_ascii c then [c]
              else lower_nonascii c) s.

(** [normalize_repeated_chars(text, char)], [char] a single character
    other than the backslash: [re.sub] reads [char] as a replacement
    template too, and a lone backslash (code point 92) makes it raise
    [re.error] for every text.  The module calls it with the space only. *)
Definition normalize_repeated_chars (text : str) (char : N) : str :=
  PyStr.strip (PyStr.squeeze char text).

(** The substitution table of [replace_invalid_chars], in the order the
    dict literal lists it: plus sign, ampersand, trade mark sign,
    copyright sign, registered sign. *)
Definition invalid_chars : list (N * str) :=
  [ (43, py "plus"); (38, py "and"); (8482, []); (169, []); (174, []) ].

Definition replace_invalid_chars (title : str) : str :=
  fold_left
    (fun title kv => PyStr.replace (fst kv) (32 :: snd kv ++ [32]) title)
    invalid_chars title.

Definition get_valid_search_key (search_key : str) : str :=
  let search_key := replace_invalid_chars search_key in
  let search_key := unidecode search_key in
  let search_key := normalize_repeated_chars search_key 32 in
  let search_key := PyStr.strip search_key in
  search_key.

Definition create_db_search_key (title : str) : str :=
  let title := get_valid_search_key title in
  let title := lower title in
  let title := filter PyStr.is_lower_alnum title in
  let title := PyStr.strip title in
  title.

End Normalizer.

(** ** MatchExpressionBuilder *)

Definition dquote : N := 34.

Definition prepare_search_key (search_key : str) : str :=
  let words := PyStr.split search_key in
  let escaped_words := map (PyStr.replace dquote [dquote; dquote]) words in
  let quoted_words := map (fun word => dquote :: word ++ [dquote]) escaped_words in
  PyStr.join [32] quoted_words.

(** ** Exceptions and the error monad *)

(** The exception classes the module can meet.  [KeyboardInterrupt] stands
    for the classes that derive from [BaseException] only. *)
Inductive exn_class :=
| BaseException
| KeyboardInterrupt
| Exception
| ValueError
| UnicodeEncodeError
| TypeError
| sqlite3_Error
| sqlite3_DatabaseError
| sqlite3_OperationalError
| sqlite3_IntegrityError.

Definition exn_class_eqb (a b : exn_class) : bool :=
  match a, b with
  | BaseException, BaseException
  | KeyboardInterrupt, KeyboardInterrupt
  | Exception, Exception
  | ValueError, ValueError
  | UnicodeEncodeError, UnicodeEncodeError
  | TypeError, TypeError
  | sqlite3_Error, sqlite3_Error
  | sqlite3_DatabaseError, sqlite3_DatabaseError
  | sqlite3_OperationalError, sqlite3_OperationalError
  | sqlite3_IntegrityError, sqlite3_IntegrityError => true
  | _, _ => false
  end.

(** Method resolution order: a class and all its bases. *)
Definition mro (c : exn_class) : list exn_class :=
  match c with
  | BaseException => [BaseException]
  | KeyboardInterrupt => [KeyboardInterrupt; BaseException]
  | Exception => [Exception; BaseException]
  | ValueError => [ValueError; Exception; BaseException]
  | UnicodeEncodeError => [UnicodeEncodeError; ValueError; Exception; BaseException]
  | TypeError => [TypeError; Exception; BaseException]
  | sqlite3_Error => [sqlite3_Error; Exception; BaseException]
  | sqlite3_DatabaseError =>
      [sqlite3_DatabaseError; sqlite3_Error; Exception; BaseException]
  | sqlite3_OperationalError =>
      [sqlite3_OperationalError; sqlite3_DatabaseError; sqlite3_Error;
       Exception; BaseException]
  | sqlite3_IntegrityError =>
      [sqlite3_IntegrityError; sqlite3_DatabaseError; sqlite3_Error;
       Exception; BaseException]
  end.

(** Whether [except c] catches an exception of class [e]. *)
Definition isinstance (e c : exn_class) : bool := existsb (exn_class_eqb c) (mro e).

(** A computation either raises ([inl]) or returns ([inr]). *)
Definition M (A : Type) : Type := (exn_class + A)%type.

Definition ret {A} (a : A) : M A := inr a.
Definition raise {A} (e : exn_class) : M A := inl e.
Definition bind {A B} (m : M A) (k : A -> M B) : M B :=
  match m with
  | inl e => inl e
  | inr a => k a
  end.

Declare Scope py_scope.
Delimit Scope py_scope with py.
Notation "x <- m ;; k" := (bind m (fun x => k))
  (at level 61, m at next level, right associativity) : py_scope.
Notation "m ;;; k" := (bind m (fun _ => k))
  (at level 61, right associativity) : py_scope.

(** ** Data model *)

(** A row of [entries], in the projection every query selects. *)
Record entry_row := {
  r_slug : str;
  r_rom_id : str;
  r_title : str;
  r_platform : str;
  r_boxart_url : str
}.

Record link := {
  l_name : str;
  l_type : str;
  l_format : str;
  l_url : str;
  l_filename : str;
  l_host : str;
  l_size : Z;
  l_size_str : str;
  l_source_url : str
}.

(** A lone surrogate (U+D800..U+DFFF): a Python string may hold one, but
    it has no UTF-8 encoding. *)
Definition is_surrogate (c : N) : bool := (55296 <=? c) && (c <=? 57343).

(** Whether [sqlite3] can bind the string to a placeholder: it encodes
    the string as UTF-8, and raises [UnicodeEncodeError] where it cannot. *)
Definition bindable (s : str) : bool := forallb (fun c => negb (is_surrogate c)) s.

(** The text columns of an entry row decode from UTF-8. *)
Definition row_text_ok (r : entry_row) : bool :=
  bindable (r_slug r) && bindable (r_rom_id r) && bindable (r_title r)
  && bindable (r_platform r) && bindable (r_boxart_url r).

(** The stored relations.  Each row of [entries] comes with the
    [search_key] of the [entries_fts] row that has its rowid, if there is
    one.  SQLite stores text as UTF-8, so the text of a row the module
    reads (and, for the slug, binds again in the child queries) holds no
    lone surrogate. *)
Record db := {
  tbl_entries : list (entry_row * option str);
  tbl_regions_entries : list (str * str);
  tbl_links : list (str * link);
  tbl_platforms : list (str * (str * str));
  tbl_regions : list (str * str);
  tbl_entries_text : forallb (fun ef => row_text_ok (fst ef)) tbl_entries = true
}.

(** An open cursor: the relations, and the exception (if any) that the
    storage layer raises when a statement is executed. *)
Record cursor := {
  cur_db : db;
  cur_fault : option exn_class
}.

(** An entry as the operations return it. *)
Record entry := {
  e_row : entry_row;
  e_regions : list str;
  e_links : list link
}.

Inductive payload :=
| NoData
| SearchData (results : list entry)
             (current_results total_results current_page total_pages : Z)
| EntryData (e : entry)
| PlatformsData (platforms : list (str * (str * str)))
| RegionsData (regions : list (str * str))
| InfoData (total_entries : Z).

(** The envelope: [info] is either empty or holds the one key [error]. *)
Record response := {
  info_error : option string;
  data : payload
}.

(** [build_response(info, data)]: a missing argument counts as empty. *)
Definition build_response (info : option string) (data : payload) : response :=
  {| info_error := info; data := data |}.

Definition entry_row_eqb (a b : entry_row) : bool :=
  str_eqb (r_slug a) (r_slug b) && str_eqb (r_rom_id a) (r_rom_id b)
  && str_eqb (r_title a) (r_title b) && str_eqb (r_platform a) (r_platform b)
  && str_eqb (r_boxart_url a) (r_boxart_url b).

(** ** The queries *)

Inductive clause :=
| FtsMatch (expr : str)            (* fts.search_key MATCH ? *)
| PlatformIn (ps : list str)       (* e.platform IN (?,...) *)
| RegionInOrNull (rs : list str)   (* (re.region IN (?,...) OR re.region IS NULL) *)
| RomIdEq (id : str).              (* e.rom_id = ? *)

(** [base_query]: SELECT DISTINCT of the entry columns FROM entries, with
    the joins and the conjunction of the clauses; every placeholder is
    shown with the parameter bound to it. *)
Record query := {
  join_fts : bool;
  left_join_regions : bool;
  where_clauses : list clause
}.

Inductive ordering :=
| NoOrder
| PrefixFirst (key : str).   (* ORDER BY (fts.search_key LIKE ? || '%') DESC *)

Record final_query := {
  fq_base : query;
  fq_order : ordering;
  fq_limit : Z;
  fq_offset : Z
}.

(** A row of the join: the entry, [fts.search_key] and [re.region]
    (absent where the relation is not joined or, for the left join, has no
    partner). *)
Record jrow := {
  j_entry : entry_row;
  j_fts : option str;
  j_region : option str
}.

Definition regions_of (d : db) (slug : str) : list str :=
  map snd (filter (fun p => str_eqb (fst p) slug) (tbl_regions_entries d)).

Definition links_of (d : db) (slug : str) : list link :=
  map snd (filter (fun p => str_eqb (fst p) slug) (tbl_links d)).

Definition from_rows (d : db) (q : query) : list jrow :=
  flat_map
    (fun ef =>
       let e := fst ef in
       let keys := if join_fts q
                   then match snd ef with Some k => [Some k] | None => [] end
                   else [None] in
       flat_map
         (fun k =>
            if left_join_regions q
            then match regions_of d (r_slug e) with
                 | [] => [ {| j_entry := e; j_fts := k; j_region := None |} ]
                 | rs => map (fun r => {| j_entry := e; j_fts := k;
                                          j_region := Some r |}) rs
                 end
            else [ {| j_entry := e; j_fts := k; j_region := None |} ])
         keys)
    (tbl_entries d).

(** SELECT DISTINCT: the first row of each projection stays. *)
Fixpoint distinct_from (seen : list entry_row) (rows : list jrow) : list jrow :=
  match rows with
  | [] => []
  | r :: rows' =>
      if existsb (entry_row_eqb (j_entry r)) seen
      then distinct_from seen rows'
      else r :: distinct_from (j_entry r :: seen) rows'
  end.

Definition distinct (rows : list jrow) : list jrow := distinct_from [] rows.

(** SQLite's LIKE: [%] is any run, [_] any one character, ASCII letters
    compare without case. *)
Definition fold_case (c : N) : N := if PyStr.is_upper c then c + 32 else c.

Fixpoint like (pattern : str) (s : str) : bool :=
  match pattern with
  | [] => match s with [] => true | _ => false end
  | p :: pattern' =>
      if p =? 37
      then (fix any (s : str) : bool :=
              like pattern' s
              || match s with [] => false | _ :: s' => any s' end) s
      else match s with
           | [] => false
           | c :: s' =>
               ((p =? 95) || (fold_case p =? fold_case c)) && like pattern' s'
           end
  end.

(** The sort key of [PrefixFirst key]: [fts.search_key LIKE key || '%']. *)
Definition prefix_key (key : str) (r : jrow) : bool :=
  match j_fts r with
  | Some k => like (key ++ [37]) k
  | None => false
  end.

(** LIMIT and OFFSET: a negative offset counts as 0, a negative limit as
    no limit. *)
Definition limit_offset {A} (limit offset : Z) (rows : list A) : list A :=
  let rows := skipn (Z.to_nat offset) rows in
  if (limit <? 0)%Z then rows else firstn (Z.to_nat limit) rows.

(** ** The decorators *)

(** [sqlite3.connect] in read-only mode: the file opens, or the call
    raises [sqlite3.OperationalError]. *)
Definition connect (file : option cursor) : M cursor :=
  match file with
  | Some cur => ret cur
  | None => raise sqlite3_OperationalError
  end.

(** [with_db(func)]: open, run [func] with the cursor, close on the way
    out whatever happened, hand on what [func] returned or raised. *)
Definition with_db {A} (func : cursor -> M A) (file : option cursor) : M A :=
  (cur <- connect file ;;
   func cur)%py.

(** [handle_exception(func)]: the [except] clauses, tried in order. *)
Definition handle_exception (func : M response) : M response :=
  match func with
  | inr r => ret r
  | inl e =>
      if isinstance e sqlite3_OperationalError
      then ret (build_response (Some "Database operation failed"%string) NoData)
      else if isinstance e sqlite3_DatabaseError
      then ret (build_response (Some "A database error occurred"%string) NoData)
      else if isinstance e ValueError
      then ret (build_response (Some "Invalid input provided"%string) NoData)
      else if isinstance e Exception
      then ret (build_response (Some "An unexpected error occurred"%string) NoData)
      else raise e
  end.

(** ** The operations *)

(** Python truthiness of an optional string: [None] and the empty string
    are false. *)
Definition truthy (s : option str) : option str :=
  match s with
  | Some (c :: s') => Some (c :: s')
  | _ => None
  end.

(** [xs or []] *)
Definition or_empty {A} (xs : option (list A)) : list A :=
  match xs with
  | Some l => l
  | None => []
  end.

(** [d[k] = v] on a dict kept in insertion order. *)
Fixpoint dict_set {V} (k : str) (v : V) (d : list (str * V)) : list (str * V) :=
  match d with
  | [] => [(k, v)]
  | (k', v') :: d' =>
      if str_eqb k' k then (k', v) :: d' else (k', v') :: dict_set k v d'
  end.

(** [cur.execute(sql, params)], before any row is produced: the statement
    is prepared, where the storage layer may raise; then the string
    parameters are bound, which raises [UnicodeEncodeError] (a
    [ValueError]) for a string that has no UTF-8 encoding.  The integers
    the module binds (LIMIT and OFFSET) always fit. *)
Definition execute (cur : cursor) (params : list str) : M unit :=
  match cur_fault cur with
  | Some e => raise e
  | None => if forallb bindable params then ret tt else raise UnicodeEncodeError
  end.

(** The strings bound to the placeholders of a clause, and of a query
    ([params] of [get_search]). *)
Definition clause_params (c : clause) : list str :=
  match c with
  | FtsMatch expr => [expr]
  | PlatformIn ps => ps
  | RegionInOrNull rs => rs
  | RomIdEq id => [id]
  end.

Definition query_params (q : query) : list str := flat_map clause_params (where_clauses q).

(** [params_with_pagination], without its two integers. *)
Definition final_params (fq : final_query) : list str :=
  query_params (fq_base fq)
  ++ match fq_order fq with
     | PrefixFirst key => [key]
     | NoOrder => []
     end.

Section Api.

Variable unidecode_table : N -> str.
Variable lower_nonascii : N -> str.

(** The full-text engine: a match expression is parsed (which can raise)
    into a test on the indexed text. *)
Variable fts_compile : str -> M (str -> bool).

Definition compile_clause (q : query) (c : clause) : M (jrow -> bool) :=
  match c with
  | FtsMatch expr =>
      if join_fts q
      then (m <- fts_compile expr ;;
            ret (fun r => match j_fts r with Some k => m k | None => false end))%py
      else raise sqlite3_OperationalError
  | PlatformIn ps =>
      ret (fun r => existsb (str_eqb (r_platform (j_entry r))) ps)
  | RegionInOrNull rs =>
      if left_join_regions q
      then ret (fun r => match j_region r with
                         | Some x => existsb (str_eqb x) rs
                         | None => true
                         end)
      else raise sqlite3_OperationalError
  | RomIdEq id =>
      ret (fun r => str_eqb (r_rom_id (j_entry r)) id)
  end.

(** The WHERE of a query: the conjunction of its clauses. *)
Fixpoint compile_where (q : query) (cs : list clause) : M (jrow -> bool) :=
  match cs with
  | [] => ret (fun _ => true)
  | c :: cs' =>
      (t <- compile_clause q c ;;
       ts <- compile_where q cs' ;;
       ret (fun r => t r && ts r))%py
  end.

(** The rows a running base query produces. *)
Definition run_base (cur : cursor) (q : query) : M (list jrow) :=
  (w <- compile_where q (where_clauses q) ;;
   ret (distinct (filter w (from_rows (cur_db cur) q))))%py.

(** The rows of [base_query], executed with [params]. *)
Definition select_base (cur : cursor) (q : query) : M (list jrow) :=
  (execute cur (query_params q) ;;;
   run_base cur q)%py.

(** SELECT COUNT( * ) FROM (base_query) *)
Definition select_count (cur : cursor) (q : query) : M Z :=
  (rows <- select_base cur q ;;
   ret (Z.of_nat (List.length rows)))%py.

(** ORDER BY a 0/1 key DESC: the rows with key 1, then the others (where
    keys tie the engine is free; this keeps the rows as they came). *)
Definition order_rows (q : query) (o : ordering) (rows : list jrow)
  : M (list jrow) :=
  match o with
  | NoOrder => ret rows
  | PrefixFirst key =>
      if join_fts q
      then ret (filter (prefix_key key) rows
                ++ filter (fun r => negb (prefix_key key r)) rows)
      else raise sqlite3_OperationalError
  end.

(** The rows of [final_query], still with their join columns. *)
Definition select_page (cur : cursor) (fq : final_query) : M (list jrow) :=
  (execute cur (final_params fq) ;;;
   rows <- run_base cur (fq_base fq) ;;
   ordered <- order_rows (fq_base fq) (fq_order fq) rows ;;
   ret (limit_offset (fq_limit fq) (fq_offset fq) ordered))%py.

(** The two child queries that fill [regions] and [links] of a row. *)
Definition hydrate (cur : cursor) (row : entry_row) : M entry :=
  (execute cur [r_slug row] ;;;
   let regions := regions_of (cur_db cur) (r_slug row) in
   execute cur [r_slug row] ;;;
   let links := links_of (cur_db cur) (r_slug row) in
   ret {| e_row := row; e_regions := regions; e_links := links |})%py.

Fixpoint hydrate_all (cur : cursor) (rows : list entry_row) : M (list entry) :=
  match rows with
  | [] => ret []
  | row :: rows' =>
      (e <- hydrate cur row ;;
       es <- hydrate_all cur rows' ;;
       ret (e :: es))%py
  end.

(** Lines 114-152 of [get_search]: the joins, clauses and parameters. *)
Definition build_base_query (search_key : option str) (platforms regions : list str)
           (rom_id : option str) : query :=
  let q := {| join_fts := false; left_join_regions := false; where_clauses := [] |} in
  let q := match truthy search_key with
           | Some key =>
               let prepared_search_key := prepare_search_key key in
               {| join_fts := true;
                  left_join_regions := left_join_regions q;
                  where_clauses := where_clauses q ++ [FtsMatch prepared_search_key] |}
           | None => q
           end in
  let q := match platforms with
           | _ :: _ =>
               {| join_fts := join_fts q;
                  left_join_regions := left_join_regions q;
                  where_clauses := where_clauses q ++ [PlatformIn platforms] |}
           | [] => q
           end in
  let q := match regions with
           | _ :: _ =>
               {| join_fts := join_fts q;
                  left_join_regions := true;
                  where_clauses := where_clauses q ++ [RegionInOrNull regions] |}
           | [] => q
           end in
  let q := match truthy rom_id with
           | Some id =>
               {| join_fts := join_fts q;
                  left_join_regions := left_join_regions q;
                  where_clauses := where_clauses q ++ [RomIdEq id] |}
           | None => q
           end in
  q.

(** Lines 163-170: ordering and pagination of the page query. *)
Definition build_final_query (base_query : query) (search_key : option str)
           (max_results offset : Z) : final_query :=
  match truthy search_key with
  | Some key =>
      let db_search_key := create_db_search_key unidecode_table lower_nonascii key in
      {| fq_base := base_query; fq_order := PrefixFirst db_search_key;
         fq_limit := max_results; fq_offset := offset |}
  | None =>
      {| fq_base := base_query; fq_order := NoOrder;
         fq_limit := max_results; fq_offset := offset |}
  end.

Local Open Scope Z_scope.

Definition total_pages_of (total_results max_results : Z) : Z :=
  if 0 <? max_results
  then (total_results + max_results - 1) / max_results
  else 1.

Definition get_search_body (cur : cursor)
           (search_key : option str) (platforms regions : option (list str))
           (rom_id : option str) (max_results page : Z) : M response :=
  let platforms := or_empty platforms in
  let regions := or_empty regions in
  let max_results := Z.max 1 (Z.min max_results 100) in
  let page := Z.max 1 page in
  let base_query := build_base_query search_key platforms regions rom_id in
  (total_results <- select_count cur base_query ;;
   let total_pages := total_pages_of total_results max_results in
   let page := Z.min page total_pages in
   let offset := (page - 1) * max_results in
   let final_query := build_final_query base_query search_key max_results offset in
   rows <- select_page cur final_query ;;
   results <- hydrate_all cur (map j_entry rows) ;;
   ret (build_response None
          (SearchData results (Z.of_nat (List.length results)) total_results
                      page total_pages)))%py.

Definition get_search (file : option cursor)
           (search_key : option str) (platforms regions : option (list str))
           (rom_id : option str) (max_results page : Z) : M response :=
  with_db
    (fun cur =>
       handle_exception
         (get_search_body cur search_key platforms regions rom_id max_results page))
    file.

(** [rand] stands for the draw of ORDER BY RANDOM() LIMIT 1. *)
Definition get_entry_body (cur : cursor) (rand : nat)
           (slug : option str) (random : bool) : M response :=
  let finish (row : entry_row) : M response :=
    (e <- hydrate cur row ;;
     ret (build_response None (EntryData e)))%py in
  if random
  then
    (execute cur [] ;;;
     let rows := map fst (tbl_entries (cur_db cur)) in
     match nth_error rows (Nat.modulo rand (List.length rows)) with
     | None => ret (build_response None NoData)
     | Some row => finish row
     end)%py
  else
    match truthy slug with
    | None => ret (build_response (Some "Slug is required"%string) NoData)
    | Some slug =>
        (execute cur [slug] ;;;
         match filter (fun row => str_eqb (r_slug row) slug)
                      (map fst (tbl_entries (cur_db cur))) with
         | [] => ret (build_response (Some "Entry not found"%string) NoData)
         | row :: _ => finish row
         end)%py
    end.

Definition get_entry (file : option cursor) (rand : nat)
           (slug : option str) (random : bool) : M response :=
  with_db (fun cur => handle_exception (get_entry_body cur rand slug random)) file.

Definition get_platforms_body (cur : cursor) : M response :=
  (execute cur [] ;;;
   let platforms :=
     fold_left (fun d row => dict_set (fst row) (snd row) d)
               (tbl_platforms (cur_db cur)) [] in
   ret (build_response None (PlatformsData platforms)))%py.

Definition get_platforms (file : option cursor) : M response :=
  with_db (fun cur => handle_exception (get_platforms_body cur)) file.

Definition get_regions_body (cur : cursor) : M response :=
  (execute cur [] ;;;
   let regions :=
     fold_left (fun d row => dict_set (fst row) (snd row) d)
               (tbl_regions (cur_db cur)) [] in
   ret (build_response None (RegionsData regions)))%py.

Definition get_regions (file : option cursor) : M response :=
  with_db (fun cur => handle_exception (get_regions_body cur)) file.

Definition get_info_body (cur : cursor) : M response :=
  (execute cur [] ;;;
   let total_entries := Z.of_nat (List.length (tbl_entries (cur_db cur))) in
   ret (build_response None (InfoData total_entries)))%py.

Definition get_info (file : option cursor) : M response :=
  with_db (fun cur => handle_exception (get_info_body cur)) file.

End Api.

(** ** Definitions used to state the properties *)

(** [s.startswith(k)] *)
Fixpoint startswith (s k : str) : bool :=
  match k, s with
  | [], _ => true
  | _ :: _, [] => false
  | a :: k', b :: s' => (a =? b) && startswith s' k'
  end.

(** A string of [a-z0-9] only. *)
Definition alnum (s : str) : Prop := Forall (fun c => PyStr.is_lower_alnum c = true) s.



(** Whether [s] holds two [c] in a row. *)
Fixpoint has_run (c : N) (s : str) : bool :=
  match s with
  | [] => false
  | x :: s' =>
      ((x =? c) && match s' with y :: _ => y =? c | [] => false end)
      || has_run c s'
  end.

(** Neither the first nor the last character is white space. *)
Definition trimmed (s : str) : Prop :=
  (forall c, hd_error s = Some c -> PyStr.is_space c = false)
  /\ (forall c, hd_error (rev s) = Some c -> PyStr.is_space c = false).

(** A string without white space. *)
Definition no_space (t : str) : Prop := Forall (fun c => PyStr.is_space c = false) t.

(** The number of double quotes of a string. *)
Definition quotes (s : str) : nat := count_occ N.eq_dec s dquote.

(** A row with all its regions and links, as [hydrate] returns it when
    the storage works. *)
Definition hydrated (d : db) (row : entry_row) : entry :=
  {| e_row := row;
     e_regions := regions_of d (r_slug row);
     e_links := links_of d (r_slug row) |}.

(** The rows of a base query in the order of the page query of
    [get_search]. *)
Definition ordered_for (unidecode_table lower_nonascii : N -> str)
           (search_key : option str) (base : list jrow) : list jrow :=
  match truthy search_key with
  | Some key =>
      let db_search_key := create_db_search_key unidecode_table lower_nonascii key in
      filter (prefix_key db_search_key) base
      ++ filter (fun r => negb (prefix_key db_search_key r)) base
  | None => base
  end.

(** The results of a search response (none when it is not one). *)
Definition search_results (r : M response) : list entry :=
  match r with
  | inr r => match data r with
             | SearchData results _ _ _ _ => results
             | _ => []
             end
  | inl _ => []
  end.

(** A token as [prepare_search_key] quotes it. *)
Definition quote_token (t : str) : str :=
  dquote :: PyStr.replace dquote [dquote; dquote] t ++ [dquote].

(** [d.get(k)] on a dict kept in insertion order. *)
Fixpoint dict_get {V} (k : str) (d : list (str * V)) : option V :=
  match d with
  | [] => None
  | (k', v) :: d' => if str_eqb k' k then Some v else dict_get k d'
  end.

(** The last row of a table with the given key. *)
Fixpoint last_with {V} (k : str) (rows : list (str * V)) : option V :=
  match rows with
  | [] => None
  | (k', v) :: rows' =>
      match last_with k rows' with
      | Some v' => Some v'
      | None => if str_eqb k' k then Some v else None
      end
  end.

(** The match expression as the design document words it: the tokens of
    the normalised key, each with its quotes doubled and wrapped in
    quotes, joined by single spaces. *)
Definition toSearchableText := get_valid_search_key.

Definition spec_match_expression (unidecode_table : N -> str) (key : str) : str :=
  let tokens := PyStr.split (toSearchableText unidecode_table key) in
  PyStr.join [32]
    (map (fun t => dquote :: PyStr.replace dquote [dquote; dquote] t ++ [dquote])
         tokens).


(** A transliteration table with the one entry the examples need (e with
    acute accent gives e), and a [lower] that leaves non-ASCII alone. *)
Definition sample_table (c : N) : str := if c =? 233 then py "e" else [].
Definition sample_lower (c : N) : str := [c].

(** [k in s] *)
Fixpoint contains (s k : str) : bool :=
  startswith s k || match s with [] => false | _ :: s' => contains s' k end.

(** A full-text engine for the examples: an expression is a list of quoted
    tokens; the empty expression is a syntax error; a text matches when it
    contains the first token. *)
Definition sample_fts (expr : str) : M (str -> bool) :=
  match PyStr.split expr with
  | [] => raise sqlite3_OperationalError
  | t :: _ => ret (fun text => contains text (removelast (tl t)))
  end.

Definition pokemon_title : str := py "Pok" ++ [233] ++ py "mon Red & Blue".

Definition mk_row (slug title platform : string) : entry_row :=
  {| r_slug := py slug; r_rom_id := py slug; r_title := py title;
     r_platform := py platform; r_boxart_url := [] |}.

Definition indexed (r : entry_row) : entry_row * option str :=
  (r, Some (create_db_search_key sample_table sample_lower (r_title r))).

(** A small catalogue: two Mario Kart titles, one with a region. *)
Definition sample_db : db :=
  {| tbl_entries := [ indexed (mk_row "smk" "Super Mario Kart" "snes");
                      indexed (mk_row "mk64" "Mario Kart 64" "n64") ];
     tbl_regions_entries := [ (py "smk", py "EU") ];
     tbl_links := [];
     tbl_platforms := [ (py "snes", (py "Nintendo", py "SNES")) ];
     tbl_regions := [ (py "EU", py "Europe") ];
     tbl_entries_text := eq_refl |}.

Definition sample_cursor : cursor := {| cur_db := sample_db; cur_fault := None |}.

Definition empty_db : db :=
  {| tbl_entries := []; tbl_regions_entries := []; tbl_links := [];
     tbl_platforms := []; tbl_regions := []; tbl_entries_text := eq_refl |}.

Definition empty_cursor : cursor := {| cur_db := empty_db; cur_fault := None |}.

(** A search on the sample catalogue: "mario" on two platforms, region
    EU, one result per page, second page. *)
Definition sample_search : M response :=
  get_search sample_table sample_lower sample_fts (Some sample_cursor)
             (Some (py "mario")) (Some [py "snes"; py "n64"]) (Some [py "EU"])
             None 1 2.

Definition sample_smk : entry :=
  hydrated sample_db (mk_row "smk" "Super Mario Kart" "snes").

Definition sample_page : response :=
  build_response None (SearchData [sample_smk] 1 2 2 2).

(** * Properties *)

(** ** Strings *)

Lemma str_eqb_eq a b : str_eqb a b = true <-> a = b.
Proof.
  unfold str_eqb. destruct (list_eq_dec N.eq_dec a b); split; congruence.
Qed.

Lemma str_eqb_refl a : str_eqb a a = true.
Proof. apply str_eqb_eq. reflexivity. Qed.

Lemma str_eqb_neq a b : str_eqb a b = false <-> a <> b.
Proof.
  unfold str_eqb. destruct (list_eq_dec N.eq_dec a b); split; congruence.
Qed.

(** ** Executing a statement *)

Lemma execute_inr cur params u :
  execute cur params = inr u ->
  cur_fault cur = None /\ forallb bindable params = true.
Proof.
  unfold execute. destruct (cur_fault cur); [discriminate |].
  destruct (forallb bindable params); [auto | discriminate].
Qed.

Lemma execute_ok cur params :
  cur_fault cur = None -> forallb bindable params = true ->
  execute cur params = inr tt.
Proof. intros Hf Hb. unfold execute. rewrite Hf, Hb. reflexivity. Qed.


(** A slug read from the catalogue can be bound again. *)
Lemma stored_slug_bindable (d : db) (row : entry_row) :
  In row (map fst (tbl_entries d)) -> bindable (r_slug row) = true.
Proof.
  intros Hin. apply in_map_iff in Hin. destruct Hin as (ef & <- & Hef).
  pose proof (tbl_entries_text d) as Hok. rewrite forallb_forall in Hok.
  specialize (Hok ef Hef). unfold row_text_ok in Hok.
  rewrite !andb_true_iff in Hok. tauto.
Qed.

(** Boolean tests on code points, read as arithmetic. *)
Ltac char_arith :=
  repeat match goal with
         | H : _ = true |- _ =>
             rewrite ?orb_true_iff, ?andb_true_iff, ?N.leb_le, ?N.ltb_lt, ?N.eqb_eq in H
         end;
  try match goal with
      | |- _ = false => apply not_true_iff_false; intro
      end;
  repeat match goal with
         | H : _ = true |- _ =>
             progress rewrite ?orb_true_iff, ?andb_true_iff, ?N.leb_le, ?N.ltb_lt,
               ?N.eqb_eq in H
         end;
  rewrite ?orb_true_iff, ?andb_true_iff, ?N.leb_le, ?N.ltb_lt, ?N.eqb_eq;
  try lia.

Lemma alnum_not_space c : PyStr.is_lower_alnum c = true -> PyStr.is_space c = false.
Proof. unfold PyStr.is_lower_alnum, PyStr.is_space. intros H. char_arith. Qed.

Lemma alnum_is_ascii c : PyStr.is_lower_alnum c = true -> PyStr.is_ascii c = true.
Proof. unfold PyStr.is_lower_alnum, PyStr.is_ascii. intros H. char_arith. Qed.

Lemma alnum_not_upper c : PyStr.is_lower_alnum c = true -> PyStr.is_upper c = false.
Proof. unfold PyStr.is_lower_alnum, PyStr.is_upper. intros H. char_arith. Qed.

Lemma alnum_not_surrogate c : PyStr.is_lower_alnum c = true -> is_surrogate c = false.
Proof. unfold PyStr.is_lower_alnum, is_surrogate. intros H. char_arith. Qed.

Lemma alnum_bindable s : alnum s -> bindable s = true.
Proof.
  unfold alnum, bindable. intros H. apply forallb_forall. intros c Hc.
  rewrite Forall_forall in H. rewrite (alnum_not_surrogate c (H c Hc)). reflexivity.
Qed.

Lemma alnum_not_invalid c old :
  PyStr.is_lower_alnum c = true ->
  In old (map fst invalid_chars) -> (c =? old) = false.
Proof.
  unfold PyStr.is_lower_alnum. intros H Hin. simpl in Hin.
  apply N.eqb_neq. char_arith.
Qed.

Lemma flat_map_unit {A} (f : A -> list A) (l : list A) :
  Forall (fun x => f x = [x]) l -> flat_map f l = l.
Proof.
  induction 1 as [| x l Hx _ IH]; simpl.
  - reflexivity.
  - rewrite Hx, IH. reflexivity.
Qed.

Lemma lstrip_no_space s :
  Forall (fun c => PyStr.is_space c = false) s -> PyStr.lstrip s = s.
Proof.
  destruct 1 as [| c s Hc _]; simpl.
  - reflexivity.
  - rewrite Hc. reflexivity.
Qed.

Lemma strip_no_space s :
  Forall (fun c => PyStr.is_space c = false) s -> PyStr.strip s = s.
Proof.
  intros H. unfold PyStr.strip, PyStr.rstrip.
  rewrite (lstrip_no_space s H).
  rewrite lstrip_no_space.
  - apply rev_involutive.
  - apply Forall_rev. exact H.
Qed.

Lemma alnum_no_space s : alnum s -> Forall (fun c => PyStr.is_space c = false) s.
Proof.
  unfold alnum. intros H. eapply Forall_impl; [| exact H].
  intros c Hc. apply alnum_not_space. exact Hc.
Qed.

Lemma replace_absent old new s :
  Forall (fun c => (c =? old) = false) s -> PyStr.replace old new s = s.
Proof.
  intros H. unfold PyStr.replace. apply flat_map_unit.
  eapply Forall_impl; [| exact H]. intros c Hc. simpl. rewrite Hc. reflexivity.
Qed.

Lemma squeeze_absent c s :
  Forall (fun x => (x =? c) = false) s -> PyStr.squeeze c s = s.
Proof.
  induction 1 as [| x s Hx _ IH]; simpl.
  - reflexivity.
  - rewrite Hx. simpl. rewrite IH. reflexivity.
Qed.

Lemma filter_all {A} (f : A -> bool) l :
  Forall (fun x => f x = true) l -> filter f l = l.
Proof.
  induction 1 as [| x l Hx _ IH]; simpl.
  - reflexivity.
  - rewrite Hx, IH. reflexivity.
Qed.

Lemma filter_Forall {A} (f : A -> bool) l : Forall (fun x => f x = true) (filter f l).
Proof.
  apply Forall_forall. intros x Hx. apply filter_In in Hx. tauto.
Qed.

(** ** TextNormalizer *)

Section NormalizerFacts.

Variable unidecode_table : N -> str.
Variable lower_nonascii : N -> str.

Let db_key := create_db_search_key unidecode_table lower_nonascii.

Lemma replace_invalid_chars_alnum s : alnum s -> replace_invalid_chars s = s.
Proof.
  intros H.
  assert (Habs : forall old, In old (map fst invalid_chars) ->
                             Forall (fun c => (c =? old) = false) s).
  { intros old Hold. eapply Forall_impl; [| exact H].
    intros c Hc. apply alnum_not_invalid; assumption. }
  unfold replace_invalid_chars, invalid_chars. simpl.
  rewrite (replace_absent 43 _ s) by (apply Habs; simpl; tauto).
  rewrite (replace_absent 38 _ s) by (apply Habs; simpl; tauto).
  rewrite (replace_absent 8482 _ s) by (apply Habs; simpl; tauto).
  rewrite (replace_absent 169 _ s) by (apply Habs; simpl; tauto).
  apply replace_absent. apply Habs. simpl. tauto.
Qed.

Lemma unidecode_alnum s : alnum s -> unidecode unidecode_table s = s.
Proof.
  intros H. unfold unidecode. apply flat_map_unit.
  eapply Forall_impl; [| exact H]. intros c Hc. simpl.
  rewrite (alnum_is_ascii c Hc). reflexivity.
Qed.

Lemma lower_alnum s : alnum s -> lower lower_nonascii s = s.
Proof.
  intros H. unfold lower. apply flat_map_unit.
  eapply Forall_impl; [| exact H]. intros c Hc. simpl.
  rewrite (alnum_not_upper c Hc), (alnum_is_ascii c Hc). reflexivity.
Qed.

Lemma get_valid_search_key_alnum s :
  alnum s -> get_valid_search_key unidecode_table s = s.
Proof.
  intros H. unfold get_valid_search_key, normalize_repeated_chars.
  rewrite (replace_invalid_chars_alnum s H), (unidecode_alnum s H).
  rewrite squeeze_absent.
  - rewrite (strip_no_space s) by (apply alnum_no_space; exact H).
    apply strip_no_space. apply alnum_no_space. exact H.
  - eapply Forall_impl; [| exact (alnum_no_space s H)].
    intros c Hc. unfold PyStr.is_space in Hc. apply N.eqb_neq. intros ->.
    discriminate Hc.
Qed.

(** The index key holds lower-case letters and digits only. *)
Lemma create_db_search_key_is_alnum x : alnum (db_key x).
Proof.
  unfold db_key, create_db_search_key.
  rewrite strip_no_space.
  - apply filter_Forall.
  - apply alnum_no_space. apply filter_Forall.
Qed.

Lemma create_db_search_key_fixes_alnum s : alnum s -> db_key s = s.
Proof.
  intros H. unfold db_key, create_db_search_key.
  rewrite (get_valid_search_key_alnum s H), (lower_alnum s H).
  rewrite (filter_all _ s H).
  apply strip_no_space. apply alnum_no_space. exact H.
Qed.

End NormalizerFacts.

(** C8: the index key of an index key is the same key, whatever the
    transliteration table holds: [create_db_search_key] is idempotent. *)
Theorem create_db_search_key_idempotent :
  forall (unidecode_table lower_nonascii : N -> str) (x : str),
    create_db_search_key unidecode_table lower_nonascii
      (create_db_search_key unidecode_table lower_nonascii x)
    = create_db_search_key unidecode_table lower_nonascii x.
Proof.
  intros tbl low x.
  apply create_db_search_key_fixes_alnum.
  apply create_db_search_key_is_alnum.
Qed.

Example normalize_repeated_chars_example :
  normalize_repeated_chars (py "a    b") 32 = py "a b".
Proof. vm_compute. reflexivity. Qed.

Example get_valid_search_key_example :
  get_valid_search_key sample_table pokemon_title = py "Pokemon Red and Blue".
Proof. vm_compute. reflexivity. Qed.

(** C4, as documented, fails: the key of the title has no "and" after
    "pokemon". *)
Lemma pokemon_key_not_as_documented :
  create_db_search_key sample_table sample_lower pokemon_title
  <> py "pokemonandredandblue".
Proof. vm_compute. intros H. discriminate H. Qed.

(** C4, amended: with a table that turns e-acute into e, the index key of
    the title "Pokemon Red & Blue" (e-acute in Pokemon) is
    "pokemonredandblue": the accent is gone, the ampersand reads "and",
    letters are lower-case and nothing but letters and digits is left. *)
Theorem pokemon_key :
  forall unidecode_table lower_nonascii : N -> str,
    unidecode_table 233 = py "e" ->
    create_db_search_key unidecode_table lower_nonascii pokemon_title
    = py "pokemonredandblue".
Proof.
  intros tbl low He.
  unfold create_db_search_key, get_valid_search_key.
  replace (replace_invalid_chars pokemon_title)
    with (py "Pok" ++ [233] ++ py "mon Red  and  Blue")
    by (vm_compute; reflexivity).
  unfold unidecode. rewrite !flat_map_app. simpl flat_map at 2.
  rewrite He, app_nil_r.
  vm_compute. reflexivity.
Qed.

Lemma pokemon_key_witness :
  sample_table 233 = py "e"
  /\ create_db_search_key sample_table sample_lower pokemon_title
     = py "pokemonredandblue".
Proof.
  split.
  - reflexivity.
  - apply (pokemon_key sample_table sample_lower). reflexivity.
Defined.

(** ** MatchExpressionBuilder *)

Lemma split_from_tokens s :
  forall cur,
    Forall (fun c => PyStr.is_space c = false) cur ->
    Forall (fun t => t <> [] /\ Forall (fun c => PyStr.is_space c = false) t)
           (PyStr.split_from cur s).
Proof.
  induction s as [| c s IH]; intros cur Hcur; simpl.
  - destruct cur as [| x cur]; constructor; [| constructor].
    split.
    + intros E. apply (f_equal (@List.length N)) in E.
      rewrite length_rev in E. discriminate E.
    + apply Forall_rev. exact Hcur.
  - destruct (PyStr.is_space c) eqn:Hc.
    + destruct cur as [| x cur].
      * apply IH. constructor.
      * constructor; [| apply IH; constructor].
        split.
        -- intros E. apply (f_equal (@List.length N)) in E.
           rewrite length_rev in E. discriminate E.
        -- apply Forall_rev. exact Hcur.
    + apply IH. constructor; assumption.
Qed.

Lemma split_from_concat s :
  forall cur,
    List.concat (PyStr.split_from cur s)
    = rev cur ++ filter (fun c => negb (PyStr.is_space c)) s.
Proof.
  induction s as [| c s IH]; intros cur; simpl.
  - destruct cur; simpl; rewrite ?app_nil_r; reflexivity.
  - destruct (PyStr.is_space c) eqn:Hc; simpl.
    + destruct cur as [| x cur].
      * rewrite IH. reflexivity.
      * simpl List.concat. rewrite IH. reflexivity.
    + rewrite IH. simpl. rewrite <- app_assoc. reflexivity.
Qed.

(** C3, as documented, fails: for the key "a&b" the expression bound to
    MATCH is the quoted raw key, not the quoted tokens of its normalised
    text. *)
Lemma match_expression_not_normalised :
  where_clauses (build_base_query (Some (py "a&b")) [] [] None)
  <> [FtsMatch (spec_match_expression sample_table (py "a&b"))].
Proof. vm_compute. intros H. discriminate H. Qed.

(** C3, amended: when a search key is supplied, the expression bound to
    MATCH is built from the key as given (no normalisation): its
    white-space separated tokens, which are non-empty, free of white space
    and together hold every other character of the key in order, each
    with every double quote doubled and wrapped in double quotes, joined
    by single spaces; no token gives the empty expression. *)
Theorem match_expression_from_raw_key :
  forall (search_key : option str) (platforms regions : list str)
         (rom_id : option str) (key : str),
    truthy search_key = Some key ->
    let q := build_base_query search_key platforms regions rom_id in
    let tokens := PyStr.split key in
    join_fts q = true
    /\ hd_error (where_clauses q)
       = Some (FtsMatch
                 (PyStr.join [32]
                    (map (fun t =>
                            dquote
                              :: flat_map (fun c => if c =? dquote
                                                    then [dquote; dquote]
                                                    else [c]) t
                              ++ [dquote])
                         tokens)))
    /\ Forall (fun t => t <> [] /\ Forall (fun c => PyStr.is_space c = false) t)
              tokens
    /\ List.concat tokens = filter (fun c => negb (PyStr.is_space c)) key
    /\ (tokens = [] -> prepare_search_key key = []).
Proof.
  intros sk pl rg rid key Hkey q tokens.
  assert (Hq : join_fts q = true
               /\ hd_error (where_clauses q)
                  = Some (FtsMatch (prepare_search_key key))).
  { unfold q, build_base_query. rewrite Hkey.
    destruct pl, rg, (truthy rid); simpl; split; reflexivity. }
  destruct Hq as [Hj Hw].
  split; [exact Hj |].
  split.
  { rewrite Hw. unfold prepare_search_key, PyStr.replace.
    rewrite map_map. reflexivity. }
  split; [apply split_from_tokens; constructor |].
  split; [apply (split_from_concat key []) |].
  intros E. unfold prepare_search_key. fold tokens. rewrite E. reflexivity.
Qed.

Lemma match_expression_from_raw_key_witness :
  truthy (Some (py "a&b")) = Some (py "a&b")
  /\ hd_error (where_clauses (build_base_query (Some (py "a&b")) [] [] None))
     = Some (FtsMatch (dquote :: py "a&b" ++ [dquote])).
Proof.
  split.
  - reflexivity.
  - exact (proj1 (proj2 (match_expression_from_raw_key
                           (Some (py "a&b")) [] [] None (py "a&b") eq_refl))).
Defined.

(** ** Pagination arithmetic *)

Local Open Scope Z_scope.

(** [total_pages_of] is the ceiling of the quotient. *)
Lemma total_pages_ceiling total_results max_results :
  0 < max_results ->
  let total_pages := total_pages_of total_results max_results in
  (total_pages - 1) * max_results < total_results <= total_pages * max_results.
Proof.
  intros Hm. unfold total_pages_of.
  destruct (Z.ltb_spec 0 max_results) as [_ | Hle]; [| lia].
  set (a := total_results + max_results - 1).
  pose proof (Z.div_mod a max_results ltac:(lia)) as Hdm.
  pose proof (Z.mod_pos_bound a max_results Hm) as Hr.
  unfold a in *. nia.
Qed.

Lemma total_pages_positive total_results max_results :
  0 < max_results -> 0 < total_results ->
  1 <= total_pages_of total_results max_results.
Proof.
  intros Hm Ht.
  pose proof (total_pages_ceiling total_results max_results Hm) as H.
  simpl in H. nia.
Qed.

(** With nothing to show the page count is 0, not 1. *)
Lemma total_pages_none max_results :
  0 < max_results -> total_pages_of 0 max_results = 0.
Proof.
  intros Hm.
  pose proof (total_pages_ceiling 0 max_results Hm) as H.
  simpl in H. nia.
Qed.

Lemma clamp_max_results_range max_results :
  1 <= Z.max 1 (Z.min max_results 100) <= 100.
Proof. lia. Qed.

(** ** The decorators *)

Lemma isinstance_exception_handled e :
  isinstance e Exception = true ->
  exists msg, msg <> EmptyString
              /\ handle_exception (inl e) = inr (build_response (Some msg) NoData).
Proof.
  intros He. unfold handle_exception.
  destruct (isinstance e sqlite3_OperationalError);
    [eexists; split; [| reflexivity]; discriminate |].
  destruct (isinstance e sqlite3_DatabaseError);
    [eexists; split; [| reflexivity]; discriminate |].
  destruct (isinstance e ValueError);
    [eexists; split; [| reflexivity]; discriminate |].
  rewrite He. eexists; split; [| reflexivity]; discriminate.
Qed.

(** What the decorated body gives once the connection is open: its own
    response, or an error envelope without data. *)
Lemma handle_exception_inr (body : M response) (r : response) :
  handle_exception body = inr r ->
  body = inr r \/ (exists e msg, body = inl e /\ r = build_response (Some msg) NoData
                                 /\ In msg ["Database operation failed";
                                            "A database error occurred";
                                            "Invalid input provided";
                                            "An unexpected error occurred"]%string).
Proof.
  unfold handle_exception. destruct body as [e | r0].
  - intros H. right. exists e.
    destruct (isinstance e sqlite3_OperationalError);
      [inversion H; eexists; split; [reflexivity | split; [reflexivity | simpl; tauto]] |].
    destruct (isinstance e sqlite3_DatabaseError);
      [inversion H; eexists; split; [reflexivity | split; [reflexivity | simpl; tauto]] |].
    destruct (isinstance e ValueError);
      [inversion H; eexists; split; [reflexivity | split; [reflexivity | simpl; tauto]] |].
    destruct (isinstance e Exception);
      [inversion H; eexists; split; [reflexivity | split; [reflexivity | simpl; tauto]] |].
    discriminate H.
  - intros H. left. exact H.
Qed.

Lemma with_db_open {A} (func : cursor -> M A) cur :
  with_db func (Some cur) = func cur.
Proof. reflexivity. Qed.

Lemma with_db_unopenable {A} (func : cursor -> M A) :
  with_db func None = raise sqlite3_OperationalError.
Proof. reflexivity. Qed.

(** C2 fails where the database file does not open: [with_db] connects
    outside the [try] of [handle_exception], so every operation raises
    [sqlite3.OperationalError] to its caller and returns no envelope. *)
Theorem connect_failure_escapes :
  forall (unidecode_table lower_nonascii : N -> str)
         (fts_compile : str -> M (str -> bool))
         (search_key : option str) (platforms regions : option (list str))
         (rom_id slug : option str) (max_results page : Z)
         (rand : nat) (random : bool),
    get_search unidecode_table lower_nonascii fts_compile None
               search_key platforms regions rom_id max_results page
    = raise sqlite3_OperationalError
    /\ get_entry None rand slug random = raise sqlite3_OperationalError
    /\ get_platforms None = raise sqlite3_OperationalError
    /\ get_regions None = raise sqlite3_OperationalError
    /\ get_info None = raise sqlite3_OperationalError.
Proof. intros. repeat split; reflexivity. Qed.

(** Once the connection is open, every exception of the body that derives
    from [Exception] becomes an envelope with a non-empty message. *)
Lemma open_operation_never_raises (body : cursor -> M response) cur :
  (forall e, body cur = inl e -> isinstance e Exception = true) ->
  exists r, with_db (fun cur => handle_exception (body cur)) (Some cur) = inr r
            /\ (forall e, body cur = inl e ->
                          exists msg, msg <> EmptyString
                                      /\ r = build_response (Some msg) NoData).
Proof.
  intros Hexc. rewrite with_db_open.
  destruct (body cur) as [e | r0] eqn:Hb.
  - destruct (isinstance_exception_handled e (Hexc e eq_refl)) as (msg & Hne & Hh).
    exists (build_response (Some msg) NoData). split; [exact Hh |].
    intros e' He'. exists msg. split; [exact Hne | reflexivity].
  - exists r0. split; [reflexivity |]. intros e He. discriminate He.
Qed.

(** ** Search: pagination *)

Lemma bind_inr {A B} (m : M A) (k : A -> M B) (b : B) :
  bind m k = inr b -> exists a, m = inr a /\ k a = inr b.
Proof.
  destruct m as [e | a]; simpl; intros H.
  - discriminate H.
  - exists a. split; [reflexivity | exact H].
Qed.

Lemma hydrate_all_rows cur rows es :
  hydrate_all cur rows = inr es -> map e_row es = rows.
Proof.
  revert es. induction rows as [| row rows IH]; simpl; intros es H.
  - inversion H. reflexivity.
  - apply bind_inr in H. destruct H as (e & He & H).
    apply bind_inr in H. destruct H as (es' & Hes & H).
    inversion H; subst es. simpl. rewrite (IH es' Hes). f_equal.
    unfold hydrate in He.
    apply bind_inr in He. destruct He as (_ & _ & He).
    apply bind_inr in He. destruct He as (_ & _ & He).
    inversion He. reflexivity.
Qed.


Section SearchFacts.

Variable unidecode_table : N -> str.
Variable lower_nonascii : N -> str.
Variable fts_compile : str -> M (str -> bool).

Let search := get_search unidecode_table lower_nonascii fts_compile.
Let search_body := get_search_body unidecode_table lower_nonascii fts_compile.
Let page_of := select_page fts_compile.
Let count_of := select_count fts_compile.

(** The steps of a search that returns. *)
Lemma get_search_body_inr cur search_key platforms regions rom_id max_results page r :
  search_body cur search_key platforms regions rom_id max_results page = inr r ->
  let m := Z.max 1 (Z.min max_results 100) in
  let q := build_base_query search_key (or_empty platforms) (or_empty regions) rom_id in
  exists total_results rows results,
    count_of cur q = inr total_results
    /\ let total_pages := total_pages_of total_results m in
       let p := Z.min (Z.max 1 page) total_pages in
       page_of cur (build_final_query unidecode_table lower_nonascii q search_key
                                      m ((p - 1) * m)) = inr rows
       /\ hydrate_all cur (map j_entry rows) = inr results
       /\ r = build_response None
                (SearchData results (Z.of_nat (List.length results))
                            total_results p total_pages).
Proof.
  unfold search_body, get_search_body, count_of, page_of. intros H.
  apply bind_inr in H. destruct H as (t & Ht & H).
  apply bind_inr in H. destruct H as (rows & Hrows & H).
  apply bind_inr in H. destruct H as (results & Hres & H).
  exists t, rows, results. simpl.
  repeat split; try assumption. inversion H. reflexivity.
Qed.

(** A response that carries search data comes from a body that returned. *)
Lemma get_search_data cur search_key platforms regions rom_id max_results page
      r results cr t cp tp :
  search (Some cur) search_key platforms regions rom_id max_results page = inr r ->
  data r = SearchData results cr t cp tp ->
  search_body cur search_key platforms regions rom_id max_results page = inr r.
Proof.
  unfold search, get_search. rewrite with_db_open. intros H Hd.
  apply handle_exception_inr in H.
  destruct H as [H | (e & msg & _ & Hr & _)]; [exact H |].
  subst r. discriminate Hd.
Qed.

Lemma select_count_nonneg cur q t : count_of cur q = inr t -> 0 <= t.
Proof.
  unfold count_of, select_count. intros H.
  apply bind_inr in H. destruct H as (rows & _ & H).
  inversion H. lia.
Qed.

(** When something matches, the page shown is a page that exists, and the
    page count is the ceiling of matches over page size. *)
Lemma search_pages_when_matches cur search_key platforms regions rom_id max_results page
      r results cr t cp tp :
  search (Some cur) search_key platforms regions rom_id max_results page = inr r ->
  data r = SearchData results cr t cp tp ->
  let m := Z.max 1 (Z.min max_results 100) in
  (tp - 1) * m < t <= tp * m
  /\ cp = Z.min (Z.max 1 page) tp
  /\ (0 < t -> 1 <= cp <= tp).
Proof.
  intros H Hd m.
  pose proof (get_search_data _ _ _ _ _ _ _ _ _ _ _ _ _ H Hd) as Hb.
  apply get_search_body_inr in Hb.
  destruct Hb as (t' & rows & res & Hc & _ & _ & Hr).
  subst r. simpl in Hd. inversion Hd; subst. clear Hd.
  fold m.
  pose proof (total_pages_ceiling t m ltac:(unfold m; lia)) as Hceil.
  simpl in Hceil.
  split; [exact Hceil |]. split; [reflexivity |].
  intros Hpos.
  pose proof (total_pages_positive t m ltac:(unfold m; lia) Hpos). lia.
Qed.

End SearchFacts.

(** C1 fails on a search that matches nothing: on the empty catalogue the
    response reports page 0 of 0, where the claim wants page 1 of 1. *)
Theorem search_empty_catalog_page_zero :
  forall (unidecode_table lower_nonascii : N -> str)
         (fts_compile : str -> M (str -> bool)) (max_results page : Z),
    get_search unidecode_table lower_nonascii fts_compile (Some empty_cursor)
               None None None None max_results page
    = inr (build_response None (SearchData [] 0 0 0 0)).
Proof.
  intros tbl low fts m p.
  unfold get_search. rewrite with_db_open.
  unfold get_search_body. simpl.
  rewrite total_pages_none by lia.
  replace (Z.min (Z.max 1 p) 0) with 0 by lia.
  unfold limit_offset, distinct. simpl distinct_from.
  rewrite skipn_nil, firstn_nil.
  destruct (Z.max 1 (Z.min m 100) <? 0); reflexivity.
Qed.

(** The same on a catalogue with entries, for a platform nobody has. *)
Example search_no_match_page_zero :
  get_search sample_table sample_lower sample_fts (Some sample_cursor)
             None (Some [py "ps2"]) None None 10 1
  = inr (build_response None (SearchData [] 0 0 0 0)).
Proof. vm_compute. reflexivity. Qed.

(** Ten per page over 25 matches is 3 pages, and page 5 becomes page 3. *)
Example total_pages_25_by_10 :
  total_pages_of 25 10 = 3 /\ Z.min (Z.max 1 5) (total_pages_of 25 10) = 3.
Proof. split; reflexivity. Qed.

(** ** Single-entry lookup *)

Lemma filter_none {A} (f : A -> bool) (l : list A) :
  (forall x, In x l -> f x = false) -> filter f l = [].
Proof.
  induction l as [| x l IH]; simpl; intros H.
  - reflexivity.
  - rewrite (H x (or_introl eq_refl)). apply IH. intros y Hy. apply H. right. exact Hy.
Qed.

Lemma hydrate_ok cur row :
  cur_fault cur = None ->
  In row (map fst (tbl_entries (cur_db cur))) ->
  hydrate cur row
  = inr {| e_row := row;
           e_regions := regions_of (cur_db cur) (r_slug row);
           e_links := links_of (cur_db cur) (r_slug row) |}.
Proof.
  intros Hf Hin. unfold hydrate.
  rewrite (execute_ok cur [r_slug row] Hf)
    by (simpl; rewrite (stored_slug_bindable _ _ Hin); reflexivity).
  reflexivity.
Qed.

(** A random lookup that returns from its body carries no error. *)
Lemma get_entry_body_random_no_error cur rand slug r :
  get_entry_body cur rand slug true = inr r -> info_error r = None.
Proof.
  unfold get_entry_body. intros H.
  apply bind_inr in H. destruct H as (_ & _ & H).
  destruct (nth_error (map fst (tbl_entries (cur_db cur)))
                      (Nat.modulo rand (List.length (map fst (tbl_entries (cur_db cur))))))
    as [row |].
  - apply bind_inr in H. destruct H as (e & _ & H). inversion H. reflexivity.
  - inversion H. reflexivity.
Qed.

(** C6, as stated, fails for a slug that cannot be bound: no row of the
    sample catalogue has the slug made of one lone surrogate, and the
    lookup answers "Invalid input provided", not "Entry not found". *)
Lemma get_entry_unencodable_slug :
  (forall row, In row (map fst (tbl_entries (cur_db sample_cursor))) ->
               r_slug row <> [55296%N])
  /\ get_entry (Some sample_cursor) 0 (Some [55296%N]) false
     = inr (build_response (Some "Invalid input provided"%string) NoData)
  /\ get_entry (Some sample_cursor) 0 (Some [55296%N]) false
     <> inr (build_response (Some "Entry not found"%string) NoData).
Proof.
  split; [| split].
  - intros row Hrow. simpl in Hrow.
    destruct Hrow as [<- | [<- | []]]; vm_compute; discriminate.
  - vm_compute. reflexivity.
  - vm_compute. intros H. discriminate H.
Qed.

(** C6, amended: with the database open and working, [get_entry] without
    a slug (and not random) answers "Slug is required"; with a slug that
    has a UTF-8 encoding and that no row has it answers "Entry not found"
    (a slug that has none is answered "Invalid input provided"); and a
    random lookup in an empty catalogue answers with empty data and no
    error. *)
Theorem get_entry_three_outcomes :
  forall (cur : cursor) (rand : nat),
    cur_fault cur = None ->
    (forall slug : option str,
        truthy slug = None ->
        get_entry (Some cur) rand slug false
        = inr (build_response (Some "Slug is required"%string) NoData))
    /\ (forall slug : str,
           slug <> [] ->
           bindable slug = true ->
           (forall row, In row (map fst (tbl_entries (cur_db cur))) ->
                        r_slug row <> slug) ->
           get_entry (Some cur) rand (Some slug) false
           = inr (build_response (Some "Entry not found"%string) NoData))
    /\ (forall slug : str,
           bindable slug = false ->
           get_entry (Some cur) rand (Some slug) false
           = inr (build_response (Some "Invalid input provided"%string) NoData))
    /\ (tbl_entries (cur_db cur) = [] ->
        forall slug : option str,
          get_entry (Some cur) rand slug true = inr (build_response None NoData)).
Proof.
  intros cur rand Hf.
  split; [| split; [| split]].
  - intros slug Hs. unfold get_entry. rewrite with_db_open.
    unfold get_entry_body. rewrite Hs. reflexivity.
  - intros slug Hne Hb Hrows. unfold get_entry. rewrite with_db_open.
    unfold get_entry_body.
    destruct slug as [| c slug]; [congruence |].
    simpl truthy. cbv iota.
    unfold execute. rewrite Hf.
    change (forallb bindable [c :: slug]) with (bindable (c :: slug) && true).
    rewrite Hb. simpl bind.
    rewrite filter_none; [reflexivity |].
    intros row Hrow. apply str_eqb_neq. apply Hrows. exact Hrow.
  - intros slug Hb. unfold get_entry. rewrite with_db_open.
    unfold get_entry_body.
    destruct slug as [| c slug]; [discriminate Hb |].
    simpl truthy. cbv iota.
    unfold execute. rewrite Hf.
    change (forallb bindable [c :: slug]) with (bindable (c :: slug) && true).
    rewrite Hb. reflexivity.
  - intros Hempty slug. unfold get_entry. rewrite with_db_open.
    unfold get_entry_body, execute.
    rewrite Hf, Hempty. simpl map. rewrite nth_error_nil. reflexivity.
Qed.

Lemma get_entry_three_outcomes_witness :
  cur_fault sample_cursor = None
  /\ get_entry (Some sample_cursor) 0 None false
     = inr (build_response (Some "Slug is required"%string) NoData)
  /\ bindable (py "nonexistent") = true
  /\ get_entry (Some sample_cursor) 0 (Some (py "nonexistent")) false
     = inr (build_response (Some "Entry not found"%string) NoData)
  /\ get_entry (Some empty_cursor) 0 None true = inr (build_response None NoData).
Proof.
  split; [reflexivity |].
  split.
  - apply (proj1 (get_entry_three_outcomes sample_cursor 0 eq_refl) None).
    reflexivity.
  - split; [reflexivity |]. split.
    + apply (proj1 (proj2 (get_entry_three_outcomes sample_cursor 0 eq_refl))).
      * discriminate.
      * reflexivity.
      * intros row Hrow. simpl in Hrow.
        destruct Hrow as [<- | [<- | []]]; vm_compute; discriminate.
    + apply (proj2 (proj2 (proj2 (get_entry_three_outcomes empty_cursor 0 eq_refl)))).
      reflexivity.
Defined.

(** C10: with [random] set, the slug plays no part: the call equals the
    call without a slug, it never answers "Slug is required" or "Entry
    not found", and with the database open and working it answers with an
    entry of the catalogue (or with empty data when there is none). *)
Theorem get_entry_random_ignores_slug :
  forall (file : option cursor) (rand : nat) (slug : option str),
    get_entry file rand slug true = get_entry file rand None true
    /\ (forall r, get_entry file rand slug true = inr r ->
                  info_error r <> Some "Slug is required"%string
                  /\ info_error r <> Some "Entry not found"%string)
    /\ (forall cur,
           file = Some cur -> cur_fault cur = None ->
           match tbl_entries (cur_db cur) with
           | [] => get_entry file rand slug true = inr (build_response None NoData)
           | _ :: _ =>
               exists row,
               In row (map fst (tbl_entries (cur_db cur)))
               /\ get_entry file rand slug true
                  = inr (build_response None
                           (EntryData
                              {| e_row := row;
                                 e_regions := regions_of (cur_db cur) (r_slug row);
                                 e_links := links_of (cur_db cur) (r_slug row) |}))
           end).
Proof.
  intros file rand slug. split; [reflexivity |]. split.
  - intros r H. destruct file as [cur |]; [| discriminate H].
    unfold get_entry in H. rewrite with_db_open in H.
    apply handle_exception_inr in H.
    destruct H as [H | (e & msg & _ & Hr & Hmsg)].
    + rewrite (get_entry_body_random_no_error _ _ _ _ H). split; discriminate.
    + subst r. simpl in *.
      split; intros E; inversion E; subst msg;
        repeat (destruct Hmsg as [Hmsg | Hmsg]; [discriminate Hmsg |]);
        exact Hmsg.
  - intros cur -> Hf. unfold get_entry. rewrite with_db_open.
    unfold get_entry_body, execute. rewrite Hf. simpl bind.
    destruct (tbl_entries (cur_db cur)) as [| ef rest] eqn:Hrows.
    + simpl map. rewrite nth_error_nil. reflexivity.
    + set (rows := map fst (ef :: rest)).
      destruct (nth_error rows (Nat.modulo rand (List.length rows))) as [row |] eqn:Hn.
      * exists row. split; [eapply nth_error_In; exact Hn |].
        rewrite (hydrate_ok cur row Hf)
          by (rewrite Hrows; eapply nth_error_In; exact Hn).
        reflexivity.
      * exfalso. apply nth_error_None in Hn.
        pose proof (Nat.mod_upper_bound rand (List.length rows)) as Hb.
        unfold rows in *. simpl in *. lia.
Qed.

Lemma get_entry_random_ignores_slug_witness :
  cur_fault sample_cursor = None
  /\ get_entry (Some sample_cursor) 3 (Some (py "nonexistent")) true
     = get_entry (Some sample_cursor) 3 None true
  /\ exists row,
      In row (map fst (tbl_entries sample_db))
      /\ get_entry (Some sample_cursor) 3 (Some (py "nonexistent")) true
         = inr (build_response None
                  (EntryData
                     {| e_row := row;
                        e_regions := regions_of sample_db (r_slug row);
                        e_links := links_of sample_db (r_slug row) |})).
Proof.
  split; [reflexivity |].
  split.
  - exact (proj1 (get_entry_random_ignores_slug
                    (Some sample_cursor) 3 (Some (py "nonexistent")))).
  - exact (proj2 (proj2 (get_entry_random_ignores_slug
                           (Some sample_cursor) 3 (Some (py "nonexistent"))))
             sample_cursor eq_refl eq_refl).
Defined.

(** ** Search: the rows of the base query *)

Lemma entry_row_eqb_eq a b : entry_row_eqb a b = true <-> a = b.
Proof.
  destruct a, b. unfold entry_row_eqb. simpl.
  rewrite !andb_true_iff, !str_eqb_eq. split.
  - intros H. f_equal; tauto.
  - intros H. inversion H. tauto.
Qed.

Lemma existsb_entry_row e seen :
  existsb (entry_row_eqb e) seen = true <-> In e seen.
Proof.
  rewrite existsb_exists. split.
  - intros (x & Hx & Heq). apply entry_row_eqb_eq in Heq. subst x. exact Hx.
  - intros H. exists e. split; [exact H | apply entry_row_eqb_eq; reflexivity].
Qed.

(** DISTINCT keeps exactly the projections that occur. *)
Lemma distinct_from_In rows :
  forall seen e,
    In e (map j_entry (distinct_from seen rows))
    <-> In e (map j_entry rows) /\ ~ In e seen.
Proof.
  induction rows as [| r rows IH]; intros seen e; simpl.
  - tauto.
  - destruct (existsb (entry_row_eqb (j_entry r)) seen) eqn:Hseen.
    + apply existsb_entry_row in Hseen. rewrite IH. split.
      * intros [H1 H2]. tauto.
      * intros [[H1 | H1] H2]; [subst e; contradiction | tauto].
    + assert (Hnot : ~ In (j_entry r) seen).
      { intros Hin. apply existsb_entry_row in Hin. congruence. }
      simpl. rewrite IH. simpl. split.
      * intros [H | [H1 H2]]; [subst e; tauto | tauto].
      * intros [[H1 | H1] H2]; [tauto |].
        destruct (entry_row_eqb (j_entry r) e) eqn:Heq.
        -- apply entry_row_eqb_eq in Heq. tauto.
        -- right. split; [exact H1 |]. intros [E | E]; [| tauto].
           subst e. rewrite (proj2 (entry_row_eqb_eq _ _) eq_refl) in Heq.
           discriminate Heq.
Qed.


(** The rows of the FROM part: one per index row of the entry when the
    index is joined, one per region of the entry (or a single one without
    region) when the regions are left-joined. *)
Lemma in_from_rows d q r :
  In r (from_rows d q)
  <-> exists f,
      In (j_entry r, f) (tbl_entries d)
      /\ (if join_fts q then f = j_fts r /\ j_fts r <> None else j_fts r = None)
      /\ (if left_join_regions q
          then match j_region r with
               | Some x => In x (regions_of d (r_slug (j_entry r)))
               | None => regions_of d (r_slug (j_entry r)) = []
               end
          else j_region r = None).
Proof.
  unfold from_rows. rewrite in_flat_map. split.
  - intros ([e f] & Hef & Hr). simpl in Hr.
    apply in_flat_map in Hr. destruct Hr as (k & Hk & Hr).
    assert (Hrow : j_entry r = e /\ j_fts r = k
                   /\ (if left_join_regions q
                       then match j_region r with
                            | Some x => In x (regions_of d (r_slug e))
                            | None => regions_of d (r_slug e) = []
                            end
                       else j_region r = None)).
    { destruct (left_join_regions q).
      - destruct (regions_of d (r_slug e)) as [| x xs] eqn:Hreg.
        + destruct Hr as [<- | []]. simpl. auto.
        + destruct Hr as [<- | Hr]; [simpl; auto |].
          apply in_map_iff in Hr. destruct Hr as (y & <- & Hy). simpl. auto.
      - destruct Hr as [<- | []]. simpl. auto. }
    destruct Hrow as (He & Hk' & Hreg). subst e k.
    exists f. split; [exact Hef |]. split; [| exact Hreg].
    destruct (join_fts q).
    + destruct f as [k |]; [| destruct Hk].
      destruct Hk as [<- | []]. split; [reflexivity | discriminate].
    + destruct Hk as [<- | []]. reflexivity.
  - intros (f & Hef & Hk & Hreg). destruct r as [e k x]. simpl in *.
    exists (e, f). split; [exact Hef |]. simpl.
    apply in_flat_map. exists k. split.
    + destruct (join_fts q).
      * destruct Hk as [-> Hne]. destruct k; [left; reflexivity | congruence].
      * subst k. left. reflexivity.
    + destruct (left_join_regions q).
      * destruct x as [x |].
        -- destruct (regions_of d (r_slug e)) as [| y ys] eqn:Hy; [destruct Hreg |].
           apply (in_map (fun r => {| j_entry := e; j_fts := k; j_region := Some r |})
                         (y :: ys) x Hreg).
        -- rewrite Hreg. left. reflexivity.
      * subst x. left. reflexivity.
Qed.




Section BaseQueryFacts.

Variable fts_compile : str -> M (str -> bool).

Let cclause := compile_clause fts_compile.
Let cwhere := compile_where fts_compile.

Lemma compile_where_inr q cs w :
  cwhere q cs = inr w ->
  exists ts, Forall2 (fun c t => cclause q c = inr t) cs ts
             /\ forall r, w r = forallb (fun t => t r) ts.
Proof.
  revert w. induction cs as [| c cs IH]; simpl; intros w H.
  - inversion H. exists []. split; [constructor | reflexivity].
  - apply bind_inr in H. destruct H as (t & Ht & H).
    apply bind_inr in H. destruct H as (w' & Hw' & H).
    destruct (IH w' Hw') as (ts & Hts & Hw).
    exists (t :: ts). split; [constructor; assumption |].
    intros r. inversion H. simpl. rewrite Hw. reflexivity.
Qed.





End BaseQueryFacts.


(** ** Search: ordering of the page query *)

Local Open Scope N_scope.




Lemma distinct_from_subset rows :
  forall seen r, In r (distinct_from seen rows) -> In r rows.
Proof.
  induction rows as [| x rows IH]; intros seen r; simpl.
  - tauto.
  - destruct (existsb (entry_row_eqb (j_entry x)) seen).
    + intros H. right. exact (IH _ _ H).
    + intros [H | H]; [left; exact H | right; exact (IH _ _ H)].
Qed.




Lemma build_base_query_join_fts search_key platforms regions rom_id :
  join_fts (build_base_query search_key platforms regions rom_id)
  = match truthy search_key with Some _ => true | None => false end.
Proof.
  unfold build_base_query.
  destruct (truthy search_key), platforms, regions, (truthy rom_id); reflexivity.
Qed.

Section OrderingFacts.

Variable unidecode_table : N -> str.
Variable lower_nonascii : N -> str.
Variable fts_compile : str -> M (str -> bool).


(** A page query that runs is the base query, ordered and sliced. *)
Lemma select_page_inr cur fq rows :
  select_page fts_compile cur fq = inr rows ->
  exists base ordered,
    select_base fts_compile cur (fq_base fq) = inr base
    /\ order_rows (fq_base fq) (fq_order fq) base = inr ordered
    /\ rows = limit_offset (fq_limit fq) (fq_offset fq) ordered.
Proof.
  unfold select_page. intros H.
  apply bind_inr in H. destruct H as ([] & Hex & H).
  apply bind_inr in H. destruct H as (base & Hbase & H).
  apply bind_inr in H. destruct H as (ordered & Hord & H).
  exists base, ordered.
  split; [| split; [exact Hord | inversion H; reflexivity]].
  apply execute_inr in Hex. destruct Hex as [Hf Hb].
  unfold final_params in Hb. rewrite forallb_app in Hb.
  apply andb_true_iff in Hb.
  unfold select_base. rewrite (execute_ok cur _ Hf (proj1 Hb)). exact Hbase.
Qed.

End OrderingFacts.





(** With the filter US, the entry without regions stays and the European
    one goes. *)
Example region_filter_example :
  get_search sample_table sample_lower sample_fts (Some sample_cursor)
             None None (Some [py "US"]) None 100 1
  = inr (build_response None
           (SearchData [ {| e_row := mk_row "mk64" "Mario Kart 64" "n64";
                            e_regions := []; e_links := [] |} ]
                       1 1 1 1)).
Proof. vm_compute. reflexivity. Qed.

(** * Further properties *)

(** ** The shape of normalised text *)

Lemma lstrip_split s :
  exists pre, s = pre ++ PyStr.lstrip s
              /\ Forall (fun c => PyStr.is_space c = true) pre.
Proof.
  induction s as [| c s (pre & Hs & Hpre)]; simpl.
  - exists []. split; [reflexivity | constructor].
  - destruct (PyStr.is_space c) eqn:Hc.
    + exists (c :: pre). split; [simpl; f_equal; exact Hs | constructor; assumption].
    + exists []. split; [reflexivity | constructor].
Qed.

Lemma rstrip_split s :
  exists post, s = PyStr.rstrip s ++ post
               /\ Forall (fun c => PyStr.is_space c = true) post.
Proof.
  unfold PyStr.rstrip.
  destruct (lstrip_split (rev s)) as (pre & Hs & Hpre).
  exists (rev pre). split.
  - rewrite <- rev_app_distr, <- Hs. symmetry. apply rev_involutive.
  - apply Forall_rev. exact Hpre.
Qed.

Lemma lstrip_head s c :
  hd_error (PyStr.lstrip s) = Some c -> PyStr.is_space c = false.
Proof.
  induction s as [| x s IH]; simpl.
  - discriminate.
  - destruct (PyStr.is_space x) eqn:Hx; [exact IH |].
    simpl. intros H. inversion H; subst. exact Hx.
Qed.

(** [strip] leaves no white space at either end. *)
Lemma strip_trimmed s : trimmed (PyStr.strip s).
Proof.
  unfold trimmed, PyStr.strip. split; intros c Hc.
  - destruct (rstrip_split (PyStr.lstrip s)) as (post & Hs & _).
    apply (lstrip_head s c). rewrite Hs.
    destruct (PyStr.rstrip (PyStr.lstrip s)); [discriminate Hc | exact Hc].
  - unfold PyStr.rstrip in Hc. rewrite rev_involutive in Hc.
    exact (lstrip_head _ c Hc).
Qed.

Lemma strip_split s :
  exists pre post, s = pre ++ PyStr.strip s ++ post
                   /\ Forall (fun c => PyStr.is_space c = true) pre
                   /\ Forall (fun c => PyStr.is_space c = true) post.
Proof.
  destruct (lstrip_split s) as (pre & Hs & Hpre).
  destruct (rstrip_split (PyStr.lstrip s)) as (post & Hl & Hpost).
  exists pre, post. unfold PyStr.strip. rewrite <- Hl. auto.
Qed.

Lemma has_run_cons_false c x s :
  has_run c (x :: s) = false -> has_run c s = false.
Proof. simpl. intros H. apply orb_false_iff in H. tauto. Qed.

Lemma has_run_app_r c a b : has_run c (a ++ b) = false -> has_run c b = false.
Proof.
  induction a as [| x a IH]; simpl app; intros H.
  - exact H.
  - apply IH. exact (has_run_cons_false c x _ H).
Qed.

Lemma has_run_app_l c a b : has_run c (a ++ b) = false -> has_run c a = false.
Proof.
  induction a as [| x a IH]; intros H.
  - reflexivity.
  - simpl app in H. simpl in H. apply orb_false_iff in H. destruct H as [H1 H2].
    simpl. rewrite (IH H2), orb_false_r.
    destruct a as [| y a]; [apply andb_false_r | exact H1].
Qed.

Lemma squeeze_cons c x s :
  PyStr.squeeze c (x :: s)
  = if (x =? c) && match s with y :: _ => y =? c | [] => false end
    then PyStr.squeeze c s
    else x :: PyStr.squeeze c s.
Proof. reflexivity. Qed.

Lemma has_run_cons c x s :
  has_run c (x :: s)
  = ((x =? c) && match s with y :: _ => y =? c | [] => false end) || has_run c s.
Proof. reflexivity. Qed.

Lemma squeeze_no_run c s : has_run c (PyStr.squeeze c s) = false.
Proof.
  induction s as [| x s IH]; [reflexivity |].
  rewrite squeeze_cons.
  destruct s as [| y s].
  - rewrite andb_false_r, has_run_cons, andb_false_r. reflexivity.
  - destruct (x =? c) eqn:Hx, (y =? c) eqn:Hy; simpl andb; cbv iota.
    + exact IH.
    + rewrite has_run_cons, IH, orb_false_r.
      rewrite squeeze_cons, Hy. simpl andb. cbv iota.
      rewrite Hy. apply andb_false_r.
    + rewrite has_run_cons, IH, Hx. reflexivity.
    + rewrite has_run_cons, IH, Hx. reflexivity.
Qed.

Lemma strip_squeeze_no_run c s : has_run c (PyStr.strip (PyStr.squeeze c s)) = false.
Proof.
  destruct (strip_split (PyStr.squeeze c s)) as (pre & post & Hs & _).
  pose proof (squeeze_no_run c s) as H. rewrite Hs in H.
  apply has_run_app_r in H. apply has_run_app_l in H. exact H.
Qed.

(** X1: for a character other than the backslash (with which the source
    raises), the result of [normalize_repeated_chars] never holds the
    character twice in a row, and has no white space at either end. *)
Theorem normalize_repeated_chars_shape :
  forall (text : str) (char : N),
    char <> 92%N ->
    has_run char (normalize_repeated_chars text char) = false
    /\ trimmed (normalize_repeated_chars text char).
Proof.
  intros text char _. unfold normalize_repeated_chars. split.
  - apply strip_squeeze_no_run.
  - apply strip_trimmed.
Qed.

Lemma normalize_repeated_chars_shape_witness :
  32%N <> 92%N
  /\ has_run 32 (normalize_repeated_chars (py " a    b ") 32) = false
  /\ trimmed (normalize_repeated_chars (py " a    b ") 32).
Proof.
  assert (Hne : 32%N <> 92%N) by discriminate.
  split; [exact Hne |].
  exact (normalize_repeated_chars_shape (py " a    b ") 32%N Hne).
Defined.

(** X2: a valid search key has no white space at either end and no two
    spaces in a row, whatever the input and the transliteration table. *)
Theorem get_valid_search_key_shape :
  forall (unidecode_table : N -> str) (search_key : str),
    trimmed (get_valid_search_key unidecode_table search_key)
    /\ has_run 32 (get_valid_search_key unidecode_table search_key) = false.
Proof.
  intros tbl key. unfold get_valid_search_key. split.
  - apply strip_trimmed.
  - set (k := normalize_repeated_chars _ 32).
    destruct (strip_split k) as (pre & post & Hs & _).
    pose proof (strip_squeeze_no_run 32 (unidecode tbl (replace_invalid_chars key)))
      as H.
    change (has_run 32 k = false) in H. rewrite Hs in H.
    apply has_run_app_r in H. apply has_run_app_l in H. exact H.
Qed.

Local Open Scope N_scope.

Lemma in_replace old new s x :
  In x (PyStr.replace old new s) -> (x <> old /\ In x s) \/ In x new.
Proof.
  unfold PyStr.replace. rewrite in_flat_map. intros (c & Hc & Hx).
  destruct (N.eqb_spec c old) as [-> | Hne].
  - right. exact Hx.
  - destruct Hx as [<- | []]. left. split; assumption.
Qed.

(** X3: [replace_invalid_chars] leaves none of the five characters of its
    table (plus, ampersand, trade mark, copyright, registered) in the
    text. *)
Theorem replace_invalid_chars_removes_all :
  forall (title : str) (c : N),
    In c (replace_invalid_chars title) -> ~ In c (map fst invalid_chars).
Proof.
  intros title c Hc Hbad.
  unfold replace_invalid_chars, invalid_chars in Hc. simpl in Hc.
  simpl in Hbad.
  repeat (apply in_replace in Hc;
          destruct Hc as [[? Hc] | Hc];
          [| simpl in Hc; intuition (subst; discriminate)]).
  intuition congruence.
Qed.

(** X4: an index key holds lower-case ASCII letters and digits only, so it
    never holds a LIKE wildcard, a space or a quote; the key of the empty
    string is empty. *)
Theorem create_db_search_key_charset :
  forall (unidecode_table lower_nonascii : N -> str) (title : str) (c : N),
    create_db_search_key unidecode_table lower_nonascii [] = []
    /\ (In c (create_db_search_key unidecode_table lower_nonascii title) ->
        PyStr.is_lower_alnum c = true
        /\ c <> 37 /\ c <> 95 /\ c <> 32 /\ c <> dquote).
Proof.
  intros tbl low title c. split; [reflexivity |].
  intros Hc.
  pose proof (create_db_search_key_is_alnum tbl low title) as H.
  unfold alnum in H. rewrite Forall_forall in H. specialize (H c Hc).
  split; [exact H |].
  unfold PyStr.is_lower_alnum in H. unfold dquote.
  repeat split; intros ->; discriminate H.
Qed.

(** ** The index key of ASCII text *)

Section AsciiKeys.

Variable unidecode_table : N -> str.
Variable lower_nonascii : N -> str.

Let ascii (s : str) : Prop := Forall (fun c => PyStr.is_ascii c = true) s.
Let spaces (s : str) : Prop := Forall (fun c => PyStr.is_space c = true) s.

(** Lower-case, then keep letters and digits. *)
Let fold_key (s : str) : str := filter PyStr.is_lower_alnum (lower lower_nonascii s).

Lemma fold_key_app a b : fold_key (a ++ b) = fold_key a ++ fold_key b.
Proof. unfold fold_key, lower. rewrite flat_map_app, filter_app. reflexivity. Qed.

Lemma fold_key_space c :
  PyStr.is_space c = true -> PyStr.is_ascii c = true -> fold_key [c] = [].
Proof.
  intros Hs Ha. unfold fold_key, lower. simpl.
  assert (Hu : PyStr.is_upper c = false).
  { unfold PyStr.is_space, PyStr.is_ascii, PyStr.is_upper in *. char_arith. }
  assert (Hl : PyStr.is_lower_alnum c = false).
  { unfold PyStr.is_space, PyStr.is_ascii, PyStr.is_lower_alnum in *. char_arith. }
  rewrite Hu, Ha. simpl. rewrite Hl. reflexivity.
Qed.

Lemma fold_key_spaces s : spaces s -> ascii s -> fold_key s = [].
Proof.
  unfold spaces, ascii. induction 1 as [| c s Hc _ IH]; intros Ha.
  - reflexivity.
  - inversion Ha; subst.
    change (c :: s) with ([c] ++ s).
    rewrite fold_key_app, (fold_key_space c Hc), IH by assumption. reflexivity.
Qed.

Lemma fold_key_strip s : ascii s -> fold_key (PyStr.strip s) = fold_key s.
Proof.
  intros Ha. destruct (strip_split s) as (pre & post & Hs & Hpre & Hpost).
  rewrite Hs at 2. unfold ascii in Ha. rewrite Hs in Ha.
  apply Forall_app in Ha. destruct Ha as [Ha1 Ha].
  apply Forall_app in Ha. destruct Ha as [_ Ha2].
  rewrite !fold_key_app, (fold_key_spaces pre Hpre Ha1),
    (fold_key_spaces post Hpost Ha2), app_nil_r.
  reflexivity.
Qed.

Lemma ascii_strip s : ascii s -> ascii (PyStr.strip s).
Proof.
  intros Ha. destruct (strip_split s) as (pre & post & Hs & _).
  unfold ascii in *. rewrite Hs in Ha.
  apply Forall_app in Ha. destruct Ha as [_ Ha].
  apply Forall_app in Ha. tauto.
Qed.

Lemma fold_key_squeeze s : fold_key (PyStr.squeeze 32 s) = fold_key s.
Proof.
  induction s as [| x s IH]; [reflexivity |].
  rewrite squeeze_cons.
  change (x :: s) with ([x] ++ s). rewrite fold_key_app.
  destruct ((x =? 32) && match s with y :: _ => y =? 32 | [] => false end) eqn:Hc.
  - apply andb_true_iff in Hc. destruct Hc as [Hx _].
    apply N.eqb_eq in Hx. subst x.
    rewrite (fold_key_space 32) by reflexivity. exact IH.
  - change (x :: PyStr.squeeze 32 s) with ([x] ++ PyStr.squeeze 32 s).
    rewrite fold_key_app, IH. reflexivity.
Qed.

Lemma ascii_squeeze c s : ascii s -> ascii (PyStr.squeeze c s).
Proof.
  unfold ascii. induction 1 as [| x s Hx _ IH]; [constructor |].
  rewrite squeeze_cons.
  destruct ((x =? c) && match s with y :: _ => y =? c | [] => false end).
  - exact IH.
  - constructor; assumption.
Qed.

Lemma ascii_replace old new s : ascii new -> ascii s -> ascii (PyStr.replace old new s).
Proof.
  unfold ascii. intros Hn Hs. rewrite Forall_forall in *.
  intros x Hx. apply in_replace in Hx. destruct Hx as [[_ Hx] | Hx]; auto.
Qed.

Lemma ascii_replace_invalid_chars s : ascii s -> ascii (replace_invalid_chars s).
Proof.
  intros Hs. unfold replace_invalid_chars, invalid_chars. simpl.
  repeat apply ascii_replace; try exact Hs;
    unfold ascii; repeat constructor.
Qed.

Lemma unidecode_ascii s : ascii s -> unidecode unidecode_table s = s.
Proof.
  intros Hs. unfold unidecode. apply flat_map_unit.
  eapply Forall_impl; [| exact Hs]. intros c Hc. simpl. rewrite Hc. reflexivity.
Qed.

Lemma replace_app old new a b :
  PyStr.replace old new (a ++ b) = PyStr.replace old new a ++ PyStr.replace old new b.
Proof. unfold PyStr.replace. apply flat_map_app. Qed.

Lemma replace_invalid_chars_app a b :
  replace_invalid_chars (a ++ b) = replace_invalid_chars a ++ replace_invalid_chars b.
Proof.
  unfold replace_invalid_chars, invalid_chars. simpl.
  rewrite !replace_app. reflexivity.
Qed.

Lemma create_db_search_key_ascii title :
  ascii title ->
  create_db_search_key unidecode_table lower_nonascii title
  = fold_key (replace_invalid_chars title).
Proof.
  intros Ha. apply ascii_replace_invalid_chars in Ha.
  unfold create_db_search_key, get_valid_search_key, normalize_repeated_chars.
  rewrite (unidecode_ascii _ Ha).
  rewrite strip_no_space by (apply alnum_no_space, filter_Forall).
  change (filter PyStr.is_lower_alnum (lower lower_nonascii ?x)) with (fold_key x).
  rewrite !fold_key_strip, fold_key_squeeze;
    auto using ascii_strip, ascii_squeeze.
Qed.

End AsciiKeys.

Lemma lower_ascii_any low low' s :
  Forall (fun c => PyStr.is_ascii c = true) s -> lower low s = lower low' s.
Proof.
  unfold lower. induction 1 as [| c s Hc _ IH]; simpl.
  - reflexivity.
  - rewrite Hc, IH. reflexivity.
Qed.

Lemma startswith_app k t : startswith (k ++ t) k = true.
Proof.
  induction k as [| c k IH]; simpl.
  - destruct t; reflexivity.
  - rewrite N.eqb_refl, IH. reflexivity.
Qed.

(** X5: for an ASCII title, white space plays no part in the index key:
    the key is the title with plus and ampersand spelled out, lower-cased,
    and with everything but letters and digits dropped; it does not depend
    on the transliteration table. *)
Theorem create_db_search_key_of_ascii :
  forall (unidecode_table lower_nonascii unidecode_table' lower_nonascii' : N -> str)
         (title : str),
    Forall (fun c => PyStr.is_ascii c = true) title ->
    create_db_search_key unidecode_table lower_nonascii title
    = filter PyStr.is_lower_alnum (lower lower_nonascii (replace_invalid_chars title))
    /\ create_db_search_key unidecode_table lower_nonascii title
       = create_db_search_key unidecode_table' lower_nonascii' title.
Proof.
  intros tbl low tbl' low' title Ha.
  rewrite (create_db_search_key_ascii tbl low title Ha),
    (create_db_search_key_ascii tbl' low' title Ha).
  split; [reflexivity |].
  rewrite (lower_ascii_any low low'); [reflexivity |].
  apply ascii_replace_invalid_chars. exact Ha.
Qed.

Lemma create_db_search_key_of_ascii_witness :
  Forall (fun c => PyStr.is_ascii c = true) (py " Mario+Kart  64 ")
  /\ create_db_search_key sample_table sample_lower (py " Mario+Kart  64 ")
     = filter PyStr.is_lower_alnum
         (lower sample_lower (replace_invalid_chars (py " Mario+Kart  64 "))).
Proof.
  assert (Ha : Forall (fun c => PyStr.is_ascii c = true) (py " Mario+Kart  64 "))
    by (repeat constructor).
  split; [exact Ha |].
  exact (proj1 (create_db_search_key_of_ascii
                  sample_table sample_lower sample_table sample_lower _ Ha)).
Defined.

(** X6: on ASCII text the index key of a concatenation is the
    concatenation of the index keys; so the key of a title starts with the
    key of each of its beginnings. *)
Theorem create_db_search_key_concat :
  forall (unidecode_table lower_nonascii : N -> str) (a b : str),
    Forall (fun c => PyStr.is_ascii c = true) a ->
    Forall (fun c => PyStr.is_ascii c = true) b ->
    create_db_search_key unidecode_table lower_nonascii (a ++ b)
    = create_db_search_key unidecode_table lower_nonascii a
      ++ create_db_search_key unidecode_table lower_nonascii b
    /\ startswith (create_db_search_key unidecode_table lower_nonascii (a ++ b))
                  (create_db_search_key unidecode_table lower_nonascii a) = true.
Proof.
  intros tbl low a b Ha Hb.
  assert (Heq : create_db_search_key tbl low (a ++ b)
                = create_db_search_key tbl low a ++ create_db_search_key tbl low b).
  { rewrite !create_db_search_key_ascii by (try apply Forall_app; auto).
    rewrite replace_invalid_chars_app. unfold lower.
    rewrite flat_map_app, filter_app. reflexivity. }
  split; [exact Heq |]. rewrite Heq. apply startswith_app.
Qed.

Lemma create_db_search_key_concat_witness :
  Forall (fun c => PyStr.is_ascii c = true) (py "Mario Kart")
  /\ Forall (fun c => PyStr.is_ascii c = true) (py " 64")
  /\ startswith (create_db_search_key sample_table sample_lower
                                      (py "Mario Kart" ++ py " 64"))
                (create_db_search_key sample_table sample_lower (py "Mario Kart"))
     = true.
Proof.
  assert (Ha : Forall (fun c => PyStr.is_ascii c = true) (py "Mario Kart"))
    by (repeat constructor).
  assert (Hb : Forall (fun c => PyStr.is_ascii c = true) (py " 64"))
    by (repeat constructor).
  split; [exact Ha |]. split; [exact Hb |].
  exact (proj2 (create_db_search_key_concat sample_table sample_lower _ _ Ha Hb)).
Defined.

(** ** The match expression *)

Lemma split_from_no_space t :
  no_space t ->
  forall cur s, PyStr.split_from cur (t ++ s) = PyStr.split_from (rev t ++ cur) s.
Proof.
  induction 1 as [| c t Hc _ IH]; intros cur s.
  - reflexivity.
  - simpl. rewrite Hc, IH, <- app_assoc. reflexivity.
Qed.

Lemma split_join ts :
  Forall (fun t => t <> [] /\ no_space t) ts ->
  PyStr.split (PyStr.join [32] ts) = ts.
Proof.
  unfold PyStr.split.
  induction 1 as [| p ts [Hne Hp] Hts IH]; [reflexivity |].
  assert (Hrev : rev p <> []).
  { intros E. apply Hne. rewrite <- (rev_involutive p), E. reflexivity. }
  destruct ts as [| q ts].
  - simpl PyStr.join. rewrite <- (app_nil_r p) at 1.
    rewrite (split_from_no_space p Hp), app_nil_r. simpl.
    destruct (rev p) eqn:E; [congruence |]. rewrite <- E, rev_involutive. reflexivity.
  - change (PyStr.join [32] (p :: q :: ts))
      with (p ++ 32 :: PyStr.join [32] (q :: ts)).
    rewrite (split_from_no_space p Hp), app_nil_r.
    change (PyStr.split_from (rev p) (32 :: PyStr.join [32] (q :: ts)))
      with (match rev p with
            | [] => PyStr.split_from [] (PyStr.join [32] (q :: ts))
            | _ => rev (rev p) :: PyStr.split_from [] (PyStr.join [32] (q :: ts))
            end).
    destruct (rev p) eqn:E; [congruence |].
    rewrite <- E, rev_involutive, IH. reflexivity.
Qed.

Lemma quote_token_no_space t :
  no_space t -> quote_token t <> [] /\ no_space (quote_token t).
Proof.
  intros Ht. split; [discriminate |].
  unfold quote_token, no_space. constructor; [reflexivity |].
  apply Forall_app. split; [| repeat constructor].
  apply Forall_forall. intros x Hx. apply in_replace in Hx.
  unfold no_space in Ht. rewrite Forall_forall in Ht.
  destruct Hx as [[_ Hx] | Hx]; [exact (Ht x Hx) |].
  simpl in Hx. destruct Hx as [<- | [<- | []]]; reflexivity.
Qed.

Lemma prepare_search_key_tokens key :
  prepare_search_key key = PyStr.join [32] (map quote_token (PyStr.split key)).
Proof. unfold prepare_search_key. rewrite map_map. reflexivity. Qed.

(** X7: splitting the match expression on white space gives back one
    quoted token for each word of the key, in order: quoting never glues
    or breaks words. *)
Theorem prepare_search_key_split :
  forall key : str,
    PyStr.split (prepare_search_key key) = map quote_token (PyStr.split key).
Proof.
  intros key. rewrite prepare_search_key_tokens. apply split_join.
  pose proof (split_from_tokens key [] ltac:(constructor)) as H.
  fold (PyStr.split key) in H.
  induction H as [| t ts [_ Ht] _ IH]; simpl; constructor.
  - apply quote_token_no_space. exact Ht.
  - exact IH.
Qed.

Lemma quotes_replace t :
  quotes (PyStr.replace dquote [dquote; dquote] t) = (2 * quotes t)%nat.
Proof.
  unfold quotes, PyStr.replace. induction t as [| c t IH]; [reflexivity |].
  simpl flat_map. rewrite count_occ_app, IH.
  destruct (N.eqb_spec c dquote) as [-> | Hne].
  - rewrite count_occ_cons_eq by reflexivity. simpl. lia.
  - rewrite count_occ_cons_neq by exact Hne.
    simpl. destruct (N.eq_dec c dquote); [contradiction | lia].
Qed.

Lemma quotes_quote_token t : quotes (quote_token t) = (2 + 2 * quotes t)%nat.
Proof.
  pose proof (quotes_replace t) as Hr. unfold quotes in *. unfold quote_token.
  rewrite count_occ_cons_eq by reflexivity.
  rewrite count_occ_app, Hr. simpl. lia.
Qed.

Lemma quotes_join ts :
  quotes (PyStr.join [32] ts) = list_sum (map (fun t => quotes t) ts).
Proof.
  unfold quotes. induction ts as [| p ts IH]; [reflexivity |].
  destruct ts as [| q ts].
  - simpl. lia.
  - change (PyStr.join [32] (p :: q :: ts))
      with (p ++ [32] ++ PyStr.join [32] (q :: ts)).
    rewrite !count_occ_app, IH. simpl. lia.
Qed.

Lemma quotes_concat ts :
  quotes (List.concat ts) = list_sum (map (fun t => quotes t) ts).
Proof.
  unfold quotes. induction ts as [| p ts IH]; [reflexivity |].
  simpl. rewrite count_occ_app, IH. reflexivity.
Qed.

Lemma quotes_no_space s :
  quotes (filter (fun c => negb (PyStr.is_space c)) s) = quotes s.
Proof.
  unfold quotes. induction s as [| c s IH]; [reflexivity |].
  simpl filter. destruct (N.eq_dec c dquote) as [-> | Hne].
  - simpl. rewrite IH. reflexivity.
  - destruct (negb (PyStr.is_space c)).
    + rewrite !count_occ_cons_neq by exact Hne. exact IH.
    + rewrite count_occ_cons_neq by exact Hne. exact IH.
Qed.

Lemma quotes_tokens ts :
  list_sum (map (fun t => quotes (quote_token t)) ts)
  = (2 * (List.length ts + list_sum (map (fun t => quotes t) ts)))%nat.
Proof.
  induction ts as [| t ts IH]; [reflexivity |].
  change (quotes (quote_token t)
          + list_sum (map (fun t => quotes (quote_token t)) ts)
          = 2 * (S (List.length ts)
                 + (quotes t + list_sum (map (fun t => quotes t) ts))))%nat.
  rewrite IH, quotes_quote_token. lia.
Qed.

(** X8: the match expression holds exactly two double quotes for every
    word of the key and two for every double quote of the key; so their
    number is even and no quoted literal is left open. *)
Theorem prepare_search_key_quotes :
  forall key : str,
    quotes (prepare_search_key key)
    = (2 * (List.length (PyStr.split key) + quotes key))%nat.
Proof.
  intros key.
  assert (Hc : List.concat (PyStr.split key)
               = filter (fun c => negb (PyStr.is_space c)) key)
    by apply (split_from_concat key []).
  rewrite prepare_search_key_tokens, quotes_join, map_map.
  rewrite <- (quotes_no_space key), <- Hc, quotes_concat.
  apply quotes_tokens.
Qed.

Lemma split_from_spaces s :
  forallb PyStr.is_space s = true -> PyStr.split_from [] s = [].
Proof.
  induction s as [| c s IH]; simpl; [reflexivity |].
  intros H. apply andb_true_iff in H. destruct H as [Hc Hs].
  rewrite Hc. exact (IH Hs).
Qed.

(** X9: the match expression is empty exactly when the key is empty or
    white space only. *)
Theorem prepare_search_key_empty :
  forall key : str,
    prepare_search_key key = [] <-> forallb PyStr.is_space key = true.
Proof.
  intros key. rewrite prepare_search_key_tokens. split.
  - intros H.
    assert (Hs : PyStr.split key = []).
    { destruct (PyStr.split key) as [| t ts]; [reflexivity |].
      destruct ts; discriminate H. }
    pose proof (split_from_concat key []) as Hc.
    fold (PyStr.split key) in Hc. rewrite Hs in Hc. simpl in Hc.
    apply forallb_forall. intros c Hin.
    destruct (PyStr.is_space c) eqn:Hsp; [reflexivity |].
    assert (Hf : In c (filter (fun c => negb (PyStr.is_space c)) key)).
    { apply filter_In. rewrite Hsp. auto. }
    rewrite <- Hc in Hf. destruct Hf.
  - intros H. unfold PyStr.split. rewrite (split_from_spaces key H). reflexivity.
Qed.

(** ** Storage faults *)



(** ** Lookup by slug *)

Lemma filter_first {A} (f : A -> bool) (l : list A) x rest :
  filter f l = x :: rest ->
  exists pre post, l = pre ++ x :: post
                   /\ Forall (fun y => f y = false) pre /\ f x = true.
Proof.
  induction l as [| y l IH]; simpl; [discriminate |].
  destruct (f y) eqn:Hy.
  - intros H. inversion H; subst. exists [], l. auto.
  - intros H. destruct (IH H) as (pre & post & -> & Hpre & Hx).
    exists (y :: pre), post. auto.
Qed.

(** X11: with the database working, a lookup by a slug that some row has
    answers with the first such row of the table, together with all its
    regions and all its links, and without error. *)
Theorem get_entry_by_slug_found :
  forall (cur : cursor) (rand : nat) (slug : str) (row : entry_row),
    cur_fault cur = None ->
    slug <> [] ->
    In row (map fst (tbl_entries (cur_db cur))) ->
    r_slug row = slug ->
    exists found before after,
      map fst (tbl_entries (cur_db cur)) = before ++ found :: after
      /\ r_slug found = slug
      /\ Forall (fun r => r_slug r <> slug) before
      /\ get_entry (Some cur) rand (Some slug) false
         = inr (build_response None
                  (EntryData
                     {| e_row := found;
                        e_regions := regions_of (cur_db cur) slug;
                        e_links := links_of (cur_db cur) slug |})).
Proof.
  intros cur rand slug row Hf Hne Hin Hslug.
  set (rows := map fst (tbl_entries (cur_db cur))) in *.
  destruct (filter (fun r => str_eqb (r_slug r) slug) rows) as [| found rest] eqn:Hfil.
  - exfalso.
    assert (Hr : In row (filter (fun r => str_eqb (r_slug r) slug) rows)).
    { apply filter_In. split; [exact Hin | apply str_eqb_eq; exact Hslug]. }
    rewrite Hfil in Hr. destruct Hr.
  - destruct (filter_first _ _ _ _ Hfil) as (before & after & Hrows & Hbefore & Hfound).
    apply str_eqb_eq in Hfound.
    exists found, before, after.
    split; [exact Hrows |]. split; [exact Hfound |].
    split.
    { eapply Forall_impl; [| exact Hbefore].
      intros r Hr. apply str_eqb_neq. exact Hr. }
    unfold get_entry. rewrite with_db_open. unfold get_entry_body.
    destruct slug as [| c slug]; [congruence |].
    assert (Hb : bindable (c :: slug) = true)
      by (rewrite <- Hslug; apply (stored_slug_bindable (cur_db cur)); exact Hin).
    assert (Hfin : In found (map fst (tbl_entries (cur_db cur))))
      by (change (In found rows); rewrite Hrows; apply in_elt).
    simpl truthy. cbv iota. unfold execute. rewrite Hf.
    change (forallb bindable [c :: slug]) with (bindable (c :: slug) && true).
    rewrite Hb. simpl bind.
    fold rows. rewrite Hfil, (hydrate_ok cur found Hf Hfin), Hfound. reflexivity.
Qed.

Lemma get_entry_by_slug_found_witness :
  cur_fault sample_cursor = None
  /\ exists found,
      r_slug found = py "mk64"
      /\ get_entry (Some sample_cursor) 0 (Some (py "mk64")) false
         = inr (build_response None
                  (EntryData {| e_row := found;
                                e_regions := regions_of sample_db (py "mk64");
                                e_links := links_of sample_db (py "mk64") |})).
Proof.
  split; [reflexivity |].
  destruct (get_entry_by_slug_found sample_cursor 0 (py "mk64")
              (mk_row "mk64" "Mario Kart 64" "n64") eq_refl
              ltac:(discriminate) ltac:(simpl; auto) eq_refl)
    as (found & before & after & _ & Hslug & _ & Hget).
  exists found. split; assumption.
Defined.

(** ** Search: what a page holds *)

Local Open Scope Z_scope.

Lemma partition_Permutation {A} (p : A -> bool) (l : list A) :
  Permutation l (filter p l ++ filter (fun x => negb (p x)) l).
Proof.
  induction l as [| x l IH]; simpl.
  - constructor.
  - destruct (p x); simpl.
    + constructor. exact IH.
    + apply Permutation_cons_app. exact IH.
Qed.

Lemma distinct_from_NoDup rows :
  forall seen, NoDup (map j_entry (distinct_from seen rows)).
Proof.
  induction rows as [| r rows IH]; intros seen; simpl.
  - constructor.
  - destruct (existsb (entry_row_eqb (j_entry r)) seen).
    + apply IH.
    + simpl. constructor; [| apply IH].
      intros Hin. apply distinct_from_In in Hin. simpl in Hin. tauto.
Qed.

Lemma limit_offset_decomp {A} (limit offset : Z) (rows : list A) :
  exists pre post, rows = pre ++ limit_offset limit offset rows ++ post.
Proof.
  unfold limit_offset.
  exists (firstn (Z.to_nat offset) rows).
  destruct (limit <? 0).
  - exists []. rewrite app_nil_r, firstn_skipn. reflexivity.
  - exists (skipn (Z.to_nat limit) (skipn (Z.to_nat offset) rows)).
    rewrite firstn_skipn, firstn_skipn. reflexivity.
Qed.

Lemma ordered_for_Permutation unidecode_table lower_nonascii search_key base :
  Permutation base (ordered_for unidecode_table lower_nonascii search_key base).
Proof.
  unfold ordered_for. destruct (truthy search_key).
  - apply partition_Permutation.
  - apply Permutation_refl.
Qed.

Lemma limit_offset_In {A} limit offset (rows : list A) x :
  In x (limit_offset limit offset rows) -> In x rows.
Proof.
  intros H. destruct (limit_offset_decomp limit offset rows) as (pre & post & Hd).
  rewrite Hd. apply in_or_app. right. apply in_or_app. left. exact H.
Qed.

Lemma hydrate_all_ok cur rows :
  cur_fault cur = None ->
  (forall row, In row rows -> In row (map fst (tbl_entries (cur_db cur)))) ->
  hydrate_all cur rows = inr (map (hydrated (cur_db cur)) rows).
Proof.
  intros Hf. induction rows as [| row rows IH]; intros Hin; simpl.
  - reflexivity.
  - rewrite (hydrate_ok cur row Hf) by (apply Hin; left; reflexivity).
    rewrite IH by (intros r Hr; apply Hin; right; exact Hr).
    reflexivity.
Qed.

Section PageFacts.

Variable unidecode_table : N -> str.
Variable lower_nonascii : N -> str.
Variable fts_compile : str -> M (str -> bool).

Let search := get_search unidecode_table lower_nonascii fts_compile.

Lemma select_base_fault_free cur q base :
  select_base fts_compile cur q = inr base -> cur_fault cur = None.
Proof.
  unfold select_base. intros H.
  apply bind_inr in H. destruct H as (u & Hex & _).
  apply execute_inr in Hex. tauto.
Qed.

(** The rows of a base query are rows of the catalogue. *)
Lemma select_base_in_catalogue cur q base r :
  select_base fts_compile cur q = inr base ->
  In r base -> In (j_entry r) (map fst (tbl_entries (cur_db cur))).
Proof.
  unfold select_base. intros H Hr.
  apply bind_inr in H. destruct H as (_ & _ & H).
  apply bind_inr in H. destruct H as (w & _ & H).
  inversion H; subst base.
  apply distinct_from_subset in Hr. apply filter_In in Hr. destruct Hr as [Hr _].
  apply in_from_rows in Hr. destruct Hr as (f & Hf & _).
  apply (in_map fst) in Hf. exact Hf.
Qed.

(** So are the rows of any page cut from them. *)
Lemma page_rows_in_catalogue cur q base search_key m off row :
  select_base fts_compile cur q = inr base ->
  In row (map j_entry
            (limit_offset m off
               (ordered_for unidecode_table lower_nonascii search_key base))) ->
  In row (map fst (tbl_entries (cur_db cur))).
Proof.
  intros Hbase Hrow. apply in_map_iff in Hrow. destruct Hrow as (r & <- & Hr).
  apply limit_offset_In in Hr.
  apply (Permutation_in _ (Permutation_sym
           (ordered_for_Permutation unidecode_table lower_nonascii search_key base)))
    in Hr.
  exact (select_base_in_catalogue cur q base r Hbase Hr).
Qed.

(** The base rows are the filtered rows of the join, without repetition. *)
Lemma select_base_inr cur q base :
  select_base fts_compile cur q = inr base ->
  exists w, compile_where fts_compile q (where_clauses q) = inr w
            /\ base = distinct (filter w (from_rows (cur_db cur) q)).
Proof.
  unfold select_base. intros H.
  apply bind_inr in H. destruct H as (_ & _ & H).
  apply bind_inr in H. destruct H as (w & Hw & H).
  exists w. split; [exact Hw |]. inversion H. reflexivity.
Qed.

Lemma select_page_of_search cur search_key platforms regions rom_id m off rows :
  let q := build_base_query search_key platforms regions rom_id in
  select_page fts_compile cur
              (build_final_query unidecode_table lower_nonascii q search_key m off)
  = inr rows ->
  exists base,
    select_base fts_compile cur q = inr base
    /\ rows = limit_offset m off
                (ordered_for unidecode_table lower_nonascii search_key base).
Proof.
  intros q H. apply select_page_inr in H.
  destruct H as (base & ordered & Hbase & Hord & Hrows).
  pose proof (build_base_query_join_fts search_key platforms regions rom_id) as Hj.
  fold q in Hj.
  unfold build_final_query, ordered_for in *.
  destruct (truthy search_key) as [key |]; simpl in *.
  - exists base. split; [exact Hbase |].
    rewrite Hj in Hord. inversion Hord; subst ordered. exact Hrows.
  - exists base. split; [exact Hbase |].
    inversion Hord; subst ordered. exact Hrows.
Qed.

(** Everything a search that returns data went through. *)
Lemma get_search_inr cur search_key platforms regions rom_id max_results page
      r results cr t cp tp :
  search (Some cur) search_key platforms regions rom_id max_results page = inr r ->
  data r = SearchData results cr t cp tp ->
  let m := Z.max 1 (Z.min max_results 100) in
  let q := build_base_query search_key (or_empty platforms) (or_empty regions) rom_id in
  exists base,
    select_base fts_compile cur q = inr base
    /\ cur_fault cur = None
    /\ t = Z.of_nat (List.length base)
    /\ tp = total_pages_of t m
    /\ cp = Z.min (Z.max 1 page) tp
    /\ cr = Z.of_nat (List.length results)
    /\ results
       = map (hydrated (cur_db cur))
             (map j_entry
                (limit_offset m ((cp - 1) * m)
                   (ordered_for unidecode_table lower_nonascii search_key base))).
Proof.
  intros H Hd m q.
  pose proof (get_search_data _ _ _ _ _ _ _ _ _ _ _ _ _ _ _ _ H Hd) as Hb.
  apply get_search_body_inr in Hb.
  destruct Hb as (t' & rows & res & Hc & Hrows & Hres & Hr).
  subst r. simpl in Hd. inversion Hd; subst. clear Hd.
  apply select_page_of_search in Hrows. destruct Hrows as (base & Hbase & Hrows).
  pose proof (select_base_fault_free _ _ _ Hbase) as Hf.
  exists base. fold q in Hc. fold m.
  unfold select_count in Hc. fold q in Hbase. rewrite Hbase in Hc. simpl in Hc.
  inversion Hc as [Ht]. clear Hc.
  subst rows.
  rewrite (hydrate_all_ok cur _ Hf) in Hres
    by (intros row Hrow; exact (page_rows_in_catalogue _ _ _ _ _ _ _ Hbase Hrow)).
  inversion Hres as [Hres'].
  clear Hres. subst results. subst t.
  repeat split; try assumption; reflexivity.
Qed.

End PageFacts.

Lemma limit_offset_NoDup {A B} (f : A -> B) limit offset (rows : list A) :
  NoDup (map f rows) -> NoDup (map f (limit_offset limit offset rows)).
Proof.
  intros H. destruct (limit_offset_decomp limit offset rows) as (pre & post & Hd).
  rewrite Hd in H. rewrite !map_app in H.
  apply NoDup_app_remove_l in H. apply NoDup_app_remove_r in H. exact H.
Qed.

Lemma map_e_row_hydrated d rows : map e_row (map (hydrated d) rows) = rows.
Proof. rewrite map_map. simpl. apply map_id. Qed.

Lemma Forall2_In_l {A B} (P : A -> B -> Prop) xs ys x :
  Forall2 P xs ys -> In x xs -> exists y, In y ys /\ P x y.
Proof.
  induction 1 as [| a b xs ys Hab _ IH]; intros Hin.
  - destruct Hin.
  - destruct Hin as [<- | Hin].
    + exists b. split; [left; reflexivity | exact Hab].
    + destruct (IH Hin) as (y & Hy & Hp). exists y. split; [right; exact Hy | exact Hp].
Qed.

(** The clauses of the base query, one for each filter that is set. *)
Lemma build_base_query_clauses search_key platforms regions rom_id :
  let q := build_base_query search_key platforms regions rom_id in
  (platforms <> [] -> In (PlatformIn platforms) (where_clauses q))
  /\ (regions <> [] ->
      In (RegionInOrNull regions) (where_clauses q) /\ left_join_regions q = true)
  /\ (forall id, truthy rom_id = Some id -> In (RomIdEq id) (where_clauses q))
  /\ (forall key, truthy search_key = Some key ->
                  In (FtsMatch (prepare_search_key key)) (where_clauses q)
                  /\ join_fts q = true).
Proof.
  unfold build_base_query.
  destruct (truthy search_key), platforms, regions, (truthy rom_id); simpl;
    repeat split; intros; try congruence;
    repeat match goal with
           | H : Some _ = Some _ |- _ => inversion H; subst; clear H
           end; tauto.
Qed.

Section ResultFacts.

Variable unidecode_table : N -> str.
Variable lower_nonascii : N -> str.
Variable fts_compile : str -> M (str -> bool).

Let search := get_search unidecode_table lower_nonascii fts_compile.

(** Every result comes from a joined row that passed the WHERE. *)
Lemma search_result_row cur search_key platforms regions rom_id max_results page
      r results cr t cp tp e :
  search (Some cur) search_key platforms regions rom_id max_results page = inr r ->
  data r = SearchData results cr t cp tp ->
  In e results ->
  let q := build_base_query search_key (or_empty platforms) (or_empty regions) rom_id in
  e = hydrated (cur_db cur) (e_row e)
  /\ exists w jr,
      compile_where fts_compile q (where_clauses q) = inr w
      /\ In jr (from_rows (cur_db cur) q) /\ w jr = true /\ j_entry jr = e_row e.
Proof.
  intros H Hd He q.
  destruct (get_search_inr _ _ _ _ _ _ _ _ _ _ _ _ _ _ _ _ H Hd)
    as (base & Hbase & Hf & _ & _ & _ & _ & Hres).
  subst results. apply in_map_iff in He. destruct He as (row & <- & Hrow).
  split; [reflexivity |].
  apply in_map_iff in Hrow. destruct Hrow as (jr & <- & Hjr).
  apply limit_offset_In in Hjr.
  apply (Permutation_in _ (Permutation_sym
           (ordered_for_Permutation unidecode_table lower_nonascii search_key base)))
    in Hjr.
  apply select_base_inr in Hbase. destruct Hbase as (w & Hw & ->).
  apply distinct_from_subset in Hjr. apply filter_In in Hjr.
  exists w, jr. simpl. tauto.
Qed.

End ResultFacts.

(** X12: a search never lists the same entry row twice, though the join
    with the regions yields one row per region. *)
Theorem search_results_distinct :
  forall (unidecode_table lower_nonascii : N -> str)
         (fts_compile : str -> M (str -> bool)) (cur : cursor)
         (search_key : option str) (platforms regions : option (list str))
         (rom_id : option str) (max_results page : Z)
         (r : response) (results : list entry) (cr t cp tp : Z),
    get_search unidecode_table lower_nonascii fts_compile (Some cur)
               search_key platforms regions rom_id max_results page = inr r ->
    data r = SearchData results cr t cp tp ->
    NoDup (map e_row results).
Proof.
  intros tbl low fts cur sk pl rg rid m p r results cr t cp tp H Hd.
  destruct (get_search_inr _ _ _ _ _ _ _ _ _ _ _ _ _ _ _ _ H Hd)
    as (base & Hbase & _ & _ & _ & _ & _ & Hres).
  subst results. rewrite map_e_row_hydrated.
  apply limit_offset_NoDup.
  apply (Permutation_NoDup
           (Permutation_map j_entry (ordered_for_Permutation tbl low sk base))).
  apply select_base_inr in Hbase. destruct Hbase as (w & _ & ->).
  apply distinct_from_NoDup.
Qed.

(** X13: every result of a search is a row of the catalogue and carries
    all regions and all links of its slug, whatever filter found it. *)
Theorem search_results_hydrated :
  forall (unidecode_table lower_nonascii : N -> str)
         (fts_compile : str -> M (str -> bool)) (cur : cursor)
         (search_key : option str) (platforms regions : option (list str))
         (rom_id : option str) (max_results page : Z)
         (r : response) (results : list entry) (cr t cp tp : Z) (e : entry),
    get_search unidecode_table lower_nonascii fts_compile (Some cur)
               search_key platforms regions rom_id max_results page = inr r ->
    data r = SearchData results cr t cp tp ->
    In e results ->
    In (e_row e) (map fst (tbl_entries (cur_db cur)))
    /\ e_regions e = regions_of (cur_db cur) (r_slug (e_row e))
    /\ e_links e = links_of (cur_db cur) (r_slug (e_row e)).
Proof.
  intros tbl low fts cur sk pl rg rid m p r results cr t cp tp e H Hd He.
  destruct (search_result_row _ _ _ _ _ _ _ _ _ _ _ _ _ _ _ _ _ H Hd He)
    as (Hhyd & w & jr & _ & Hjr & _ & Hrow).
  split.
  - apply in_from_rows in Hjr. destruct Hjr as (f & Hf & _).
    rewrite <- Hrow. apply (in_map fst) in Hf. exact Hf.
  - rewrite Hhyd at 1 3. simpl. split; reflexivity.
Qed.

(** X14: every result of a search passes each filter that was given: its
    platform is one of [platforms], its rom_id is [rom_id], and it has a
    region of [regions] or no region at all. *)
Theorem search_results_pass_filters :
  forall (unidecode_table lower_nonascii : N -> str)
         (fts_compile : str -> M (str -> bool)) (cur : cursor)
         (search_key : option str) (platforms regions : option (list str))
         (rom_id : option str) (max_results page : Z)
         (r : response) (results : list entry) (cr t cp tp : Z) (e : entry),
    get_search unidecode_table lower_nonascii fts_compile (Some cur)
               search_key platforms regions rom_id max_results page = inr r ->
    data r = SearchData results cr t cp tp ->
    In e results ->
    (or_empty platforms <> [] -> In (r_platform (e_row e)) (or_empty platforms))
    /\ (forall id, truthy rom_id = Some id -> r_rom_id (e_row e) = id)
    /\ (or_empty regions <> [] ->
        e_regions e = []
        \/ exists x, In x (e_regions e) /\ In x (or_empty regions)).
Proof.
  intros tbl low fts cur sk pl rg rid m p r results cr t cp tp e H Hd He.
  destruct (search_result_row _ _ _ _ _ _ _ _ _ _ _ _ _ _ _ _ _ H Hd He)
    as (Hhyd & w & jr & Hw & Hjr & Hpass & Hrow).
  apply compile_where_inr in Hw. destruct Hw as (ts & Hts & Hspec).
  rewrite Hspec in Hpass. rewrite forallb_forall in Hpass.
  destruct (build_base_query_clauses sk (or_empty pl) (or_empty rg) rid)
    as (Hpl & Hrg & Hrid & _).
  split; [| split].
  - intros Hne.
    destruct (Forall2_In_l _ _ _ _ Hts (Hpl Hne)) as (tst & Hin & Hc).
    simpl in Hc. inversion Hc; subst tst.
    specialize (Hpass _ Hin). simpl in Hpass.
    apply existsb_exists in Hpass. destruct Hpass as (x & Hx & Heq).
    apply str_eqb_eq in Heq. rewrite <- Hrow, Heq. exact Hx.
  - intros id Hid.
    destruct (Forall2_In_l _ _ _ _ Hts (Hrid id Hid)) as (tst & Hin & Hc).
    simpl in Hc. inversion Hc; subst tst.
    specialize (Hpass _ Hin). simpl in Hpass.
    apply str_eqb_eq in Hpass. rewrite <- Hrow. exact Hpass.
  - intros Hne. destruct (Hrg Hne) as [Hclause Hlj].
    destruct (Forall2_In_l _ _ _ _ Hts Hclause) as (tst & Hin & Hc).
    simpl in Hc. rewrite Hlj in Hc. inversion Hc; subst tst.
    specialize (Hpass _ Hin). simpl in Hpass.
    apply in_from_rows in Hjr. destruct Hjr as (f & _ & _ & Hreg).
    rewrite Hlj in Hreg. rewrite Hhyd. simpl. rewrite <- Hrow.
    destruct (j_region jr) as [x |].
    + right. exists x. split; [exact Hreg |].
      apply existsb_exists in Hpass. destruct Hpass as (y & Hy & Heq).
      apply str_eqb_eq in Heq. subst y. exact Hy.
    + left. exact Hreg.
Qed.

Lemma limit_offset_size {A} (limit offset : Z) (rows : list A) :
  0 <= limit -> 0 <= offset ->
  Z.of_nat (List.length (limit_offset limit offset rows))
  = Z.max 0 (Z.min limit (Z.of_nat (List.length rows) - offset)).
Proof.
  intros Hl Ho. unfold limit_offset.
  destruct (Z.ltb_spec limit 0) as [Hneg | _]; [lia |].
  rewrite length_firstn, length_skipn. lia.
Qed.

(** X15: a page holds as many results as fit: with matches, the page
    shown holds min(max_results, what is left from its offset) results and
    at least one; it never holds more than there are matches, and none
    when nothing matches. *)
Theorem search_page_size :
  forall (unidecode_table lower_nonascii : N -> str)
         (fts_compile : str -> M (str -> bool)) (cur : cursor)
         (search_key : option str) (platforms regions : option (list str))
         (rom_id : option str) (max_results page : Z)
         (r : response) (results : list entry) (cr t cp tp : Z),
    get_search unidecode_table lower_nonascii fts_compile (Some cur)
               search_key platforms regions rom_id max_results page = inr r ->
    data r = SearchData results cr t cp tp ->
    let m := Z.max 1 (Z.min max_results 100) in
    cr = Z.of_nat (List.length results)
    /\ 0 <= cr <= t
    /\ (0 < t -> cr = Z.min m (t - (cp - 1) * m) /\ 1 <= cr)
    /\ (t = 0 -> results = []).
Proof.
  intros tbl low fts cur sk pl rg rid mr pg r results cr t cp tp H Hd m.
  destruct (get_search_inr _ _ _ _ _ _ _ _ _ _ _ _ _ _ _ _ H Hd)
    as (base & _ & _ & Ht & Htp & Hcp & Hcr & Hres).
  fold m in Htp, Hres.
  set (ordered := ordered_for tbl low sk base) in *.
  assert (Hlen : Z.of_nat (List.length ordered) = t).
  { rewrite Ht. f_equal. symmetry. apply Permutation_length.
    apply ordered_for_Permutation. }
  assert (Hm : 1 <= m) by (unfold m; lia).
  pose proof (total_pages_ceiling t m ltac:(lia)) as Hceil.
  simpl in Hceil. rewrite <- Htp in Hceil.
  assert (Hrows : cr = Z.of_nat (List.length (limit_offset m ((cp - 1) * m) ordered))).
  { rewrite Hcr, Hres, !length_map. reflexivity. }
  split; [exact Hcr |].
  assert (Ht0 : 0 <= t) by lia.
  destruct (Z.eq_dec t 0) as [Hz | Hnz].
  - assert (Hnil : ordered = []).
    { destruct ordered; [reflexivity | simpl in Hlen; lia]. }
    assert (Hr0 : results = []).
    { rewrite Hres, Hnil. unfold limit_offset. rewrite skipn_nil, firstn_nil.
      destruct (m <? 0); reflexivity. }
    rewrite Hcr, Hr0. simpl. repeat split; lia.
  - assert (Hpos : 0 < t) by lia.
    assert (Htp1 : 1 <= tp) by nia.
    assert (Hcp1 : 1 <= cp <= tp) by lia.
    assert (Hoff : 0 <= (cp - 1) * m < t) by nia.
    rewrite limit_offset_size in Hrows by lia.
    rewrite Hlen in Hrows.
    repeat split; try lia.
Qed.

(** ** Search: all the pages *)

Lemma chunks_cover {A} (k : nat) :
  forall (n : nat) (l : list A),
    (List.length l <= n * k)%nat ->
    flat_map (fun i => firstn k (skipn (i * k) l)) (seq 0 n) = l.
Proof.
  induction n as [| n IH]; intros l Hlen.
  - destruct l; [reflexivity | simpl in Hlen; lia].
  - change (seq 0 (S n)) with (0%nat :: seq 1 n).
    rewrite <- seq_shift. simpl flat_map. rewrite flat_map_concat_map, map_map.
    rewrite <- flat_map_concat_map.
    rewrite (flat_map_ext _ (fun i => firstn k (skipn (i * k) (skipn k l)))).
    + rewrite IH by (rewrite length_skipn; lia). apply firstn_skipn.
    + intros i. rewrite skipn_skipn. f_equal. f_equal. lia.
Qed.

Lemma flat_map_ext_seq {A} (f g : nat -> list A) (start len : nat) :
  (forall i, (start <= i < start + len)%nat -> f i = g i) ->
  flat_map f (seq start len) = flat_map g (seq start len).
Proof.
  revert start. induction len as [| len IH]; intros start H; simpl.
  - reflexivity.
  - rewrite (H start) by lia. rewrite IH; [reflexivity |].
    intros i Hi. apply H. lia.
Qed.

Lemma map_flat_map_seq {A B} (h : A -> B) (f : nat -> list A) (l : list nat) :
  flat_map (fun i => map h (f i)) l = map h (flat_map f l).
Proof.
  induction l as [| x l IH]; simpl.
  - reflexivity.
  - rewrite map_app, IH. reflexivity.
Qed.

(** The pages 1..n of a list, n pages being enough, put end to end. *)
Lemma pages_cover {A} (m : Z) (n : nat) (l : list A) :
  1 <= m -> Z.of_nat (List.length l) <= Z.of_nat n * m ->
  flat_map (fun p => limit_offset m ((Z.of_nat p - 1) * m) l) (seq 1 n) = l.
Proof.
  intros Hm Hlen.
  rewrite <- seq_shift, flat_map_concat_map, map_map, <- flat_map_concat_map.
  rewrite (flat_map_ext _ (fun i => firstn (Z.to_nat m) (skipn (i * Z.to_nat m) l))).
  - apply chunks_cover. nia.
  - intros i. unfold limit_offset.
    destruct (Z.ltb_spec m 0) as [Hneg | _]; [lia |].
    f_equal. f_equal.
    replace (Z.of_nat (S i) - 1) with (Z.of_nat i) by lia.
    rewrite Z2Nat.inj_mul by lia. rewrite Nat2Z.id. reflexivity.
Qed.

Section AllPages.

Variable unidecode_table : N -> str.
Variable lower_nonascii : N -> str.
Variable fts_compile : str -> M (str -> bool).

Let search := get_search unidecode_table lower_nonascii fts_compile.

Lemma select_page_ok cur search_key platforms regions rom_id m off base :
  let q := build_base_query search_key platforms regions rom_id in
  select_base fts_compile cur q = inr base ->
  select_page fts_compile cur
              (build_final_query unidecode_table lower_nonascii q search_key m off)
  = inr (limit_offset m off
           (ordered_for unidecode_table lower_nonascii search_key base)).
Proof.
  intros q Hbase.
  pose proof (build_base_query_join_fts search_key platforms regions rom_id) as Hj.
  fold q in Hj.
  unfold select_base in Hbase.
  apply bind_inr in Hbase. destruct Hbase as ([] & Hex & Hrun).
  apply execute_inr in Hex. destruct Hex as [Hf Hb].
  unfold select_page. rewrite (execute_ok cur _ Hf).
  - unfold build_final_query, ordered_for.
    destruct (truthy search_key) as [key |]; simpl; fold q; rewrite Hrun; simpl.
    + rewrite Hj. reflexivity.
    + reflexivity.
  - assert (Hfp : final_params (build_final_query unidecode_table lower_nonascii q
                                                  search_key m off)
                  = query_params q
                    ++ match truthy search_key with
                       | Some key =>
                           [create_db_search_key unidecode_table lower_nonascii key]
                       | None => []
                       end).
    { unfold final_params, build_final_query.
      destruct (truthy search_key); reflexivity. }
    rewrite Hfp, forallb_app, Hb.
    destruct (truthy search_key) as [key |]; cbn [forallb andb].
    + rewrite alnum_bindable by apply create_db_search_key_is_alnum. reflexivity.
    + reflexivity.
Qed.

(** A search whose base query runs returns this response. *)
Lemma get_search_ok cur search_key platforms regions rom_id max_results page base :
  select_base fts_compile cur
              (build_base_query search_key (or_empty platforms) (or_empty regions)
                                rom_id) = inr base ->
  let m := Z.max 1 (Z.min max_results 100) in
  let t := Z.of_nat (List.length base) in
  let tp := total_pages_of t m in
  let cp := Z.min (Z.max 1 page) tp in
  let results :=
    map (hydrated (cur_db cur))
        (map j_entry
           (limit_offset m ((cp - 1) * m)
              (ordered_for unidecode_table lower_nonascii search_key base))) in
  search (Some cur) search_key platforms regions rom_id max_results page
  = inr (build_response None
           (SearchData results (Z.of_nat (List.length results)) t cp tp)).
Proof.
  intros Hbase m t tp cp results.
  pose proof (select_base_fault_free _ _ _ _ Hbase) as Hf.
  unfold search, get_search. rewrite with_db_open.
  unfold get_search_body, select_count. rewrite Hbase. simpl bind.
  rewrite (select_page_ok cur search_key (or_empty platforms) (or_empty regions)
                          rom_id _ _ base Hbase).
  simpl bind.
  rewrite (hydrate_all_ok cur _ Hf)
    by (intros row Hrow;
        exact (page_rows_in_catalogue _ _ _ _ _ _ _ _ _ _ Hbase Hrow)).
  reflexivity.
Qed.

End AllPages.

(** X16: the pages 1..total_pages of a search, put end to end, are the
    matching rows in the order of the page query, each with its regions
    and links: every matching row is on exactly one page. *)
Theorem search_pages_partition :
  forall (unidecode_table lower_nonascii : N -> str)
         (fts_compile : str -> M (str -> bool)) (cur : cursor)
         (search_key : option str) (platforms regions : option (list str))
         (rom_id : option str) (max_results page : Z)
         (r : response) (results : list entry) (cr t cp tp : Z),
    get_search unidecode_table lower_nonascii fts_compile (Some cur)
               search_key platforms regions rom_id max_results page = inr r ->
    data r = SearchData results cr t cp tp ->
    let all :=
      flat_map
        (fun p => search_results
                    (get_search unidecode_table lower_nonascii fts_compile (Some cur)
                                search_key platforms regions rom_id max_results
                                (Z.of_nat p)))
        (seq 1 (Z.to_nat tp)) in
    exists base,
      select_base fts_compile cur
                  (build_base_query search_key (or_empty platforms)
                                    (or_empty regions) rom_id) = inr base
      /\ all = map (hydrated (cur_db cur))
                   (map j_entry
                      (ordered_for unidecode_table lower_nonascii search_key base))
      /\ NoDup (map e_row all)
      /\ Z.of_nat (List.length all) = t.
Proof.
  intros tbl low fts cur sk pl rg rid mr pg r results cr t cp tp H Hd all.
  destruct (get_search_inr _ _ _ _ _ _ _ _ _ _ _ _ _ _ _ _ H Hd)
    as (base & Hbase & _ & Ht & Htp & _ & _ & _).
  set (m := Z.max 1 (Z.min mr 100)) in *.
  set (ordered := ordered_for tbl low sk base).
  assert (Hm : 1 <= m) by (unfold m; lia).
  assert (Hperm : Permutation base ordered) by apply ordered_for_Permutation.
  assert (Hlen : Z.of_nat (List.length ordered) = t).
  { rewrite Ht. f_equal. symmetry. apply Permutation_length. exact Hperm. }
  pose proof (total_pages_ceiling t m ltac:(lia)) as Hceil.
  simpl in Hceil. rewrite <- Htp in Hceil.
  assert (Htp0 : 0 <= tp) by nia.
  assert (Hall : all = map (hydrated (cur_db cur)) (map j_entry ordered)).
  { unfold all.
    rewrite (flat_map_ext_seq _
               (fun p => map (hydrated (cur_db cur))
                             (map j_entry
                                (limit_offset m ((Z.of_nat p - 1) * m) ordered)))).
    - rewrite map_flat_map_seq, map_flat_map_seq.
      rewrite pages_cover by lia. reflexivity.
    - intros p Hp.
      rewrite (get_search_ok tbl low fts cur sk pl rg rid mr (Z.of_nat p) base Hbase).
      simpl search_results. fold m. rewrite <- Ht, <- Htp.
      replace (Z.min (Z.max 1 (Z.of_nat p)) tp) with (Z.of_nat p) by lia.
      reflexivity. }
  exists base. split; [exact Hbase |]. split; [exact Hall |].
  rewrite Hall, map_e_row_hydrated, !length_map. split; [| exact Hlen].
  apply (Permutation_NoDup (Permutation_map j_entry Hperm)).
  apply select_base_inr in Hbase. destruct Hbase as (w & _ & ->).
  apply distinct_from_NoDup.
Qed.

Lemma sample_search_page : sample_search = inr sample_page.
Proof. vm_compute. reflexivity. Qed.

Lemma search_results_distinct_witness :
  sample_search = inr sample_page
  /\ data sample_page = SearchData [sample_smk] 1 2 2 2
  /\ NoDup (map e_row [sample_smk]).
Proof.
  split; [exact sample_search_page |]. split; [reflexivity |].
  exact (search_results_distinct _ _ _ _ _ _ _ _ _ _ _ _ _ _ _ _
           sample_search_page eq_refl).
Defined.

Lemma search_results_hydrated_witness :
  sample_search = inr sample_page
  /\ data sample_page = SearchData [sample_smk] 1 2 2 2
  /\ In sample_smk [sample_smk]
  /\ e_regions sample_smk = regions_of sample_db (r_slug (e_row sample_smk)).
Proof.
  split; [exact sample_search_page |]. split; [reflexivity |].
  split; [left; reflexivity |].
  exact (proj1 (proj2 (search_results_hydrated _ _ _ _ _ _ _ _ _ _ _ _ _ _ _ _ _
                         sample_search_page eq_refl (or_introl eq_refl)))).
Defined.

Lemma search_results_pass_filters_witness :
  sample_search = inr sample_page
  /\ data sample_page = SearchData [sample_smk] 1 2 2 2
  /\ In sample_smk [sample_smk]
  /\ In (r_platform (e_row sample_smk)) [py "snes"; py "n64"].
Proof.
  split; [exact sample_search_page |]. split; [reflexivity |].
  split; [left; reflexivity |].
  apply (proj1 (search_results_pass_filters _ _ _ _ _ _ _ _ _ _ _ _ _ _ _ _ _
                  sample_search_page eq_refl (or_introl eq_refl))).
  discriminate.
Defined.

Lemma search_page_size_witness :
  sample_search = inr sample_page
  /\ data sample_page = SearchData [sample_smk] 1 2 2 2
  /\ 0 <= 1 <= 2.
Proof.
  split; [exact sample_search_page |]. split; [reflexivity |].
  exact (proj1 (proj2 (search_page_size _ _ _ _ _ _ _ _ _ _ _ _ _ _ _ _
                         sample_search_page eq_refl))).
Defined.

Lemma search_pages_partition_witness :
  sample_search = inr sample_page
  /\ data sample_page = SearchData [sample_smk] 1 2 2 2
  /\ exists base,
      select_base sample_fts sample_cursor
                  (build_base_query (Some (py "mario")) [py "snes"; py "n64"]
                                    [py "EU"] None) = inr base
      /\ flat_map
           (fun p => search_results
                       (get_search sample_table sample_lower sample_fts
                                   (Some sample_cursor) (Some (py "mario"))
                                   (Some [py "snes"; py "n64"]) (Some [py "EU"])
                                   None 1 (Z.of_nat p)))
           (seq 1 (Z.to_nat 2))
         = map (hydrated sample_db)
               (map j_entry (ordered_for sample_table sample_lower
                                         (Some (py "mario")) base)).
Proof.
  split; [exact sample_search_page |]. split; [reflexivity |].
  destruct (search_pages_partition _ _ _ _ _ _ _ _ _ _ _ _ _ _ _ _
              sample_search_page eq_refl) as (base & Hbase & Hall & _).
  exists base. split; [exact Hbase | exact Hall].
Defined.

(** ** Counting and the lookup tables *)

Lemma from_rows_plain d :
  from_rows d {| join_fts := false; left_join_regions := false; where_clauses := [] |}
  = map (fun ef => {| j_entry := fst ef; j_fts := None; j_region := None |})
        (tbl_entries d).
Proof.
  unfold from_rows. simpl. induction (tbl_entries d) as [| ef l IH]; simpl.
  - reflexivity.
  - rewrite IH. reflexivity.
Qed.

Lemma distinct_from_length rows :
  forall seen, (List.length (distinct_from seen rows) <= List.length rows)%nat.
Proof.
  induction rows as [| r rows IH]; intros seen; simpl.
  - lia.
  - destruct (existsb (entry_row_eqb (j_entry r)) seen); simpl.
    + specialize (IH seen). lia.
    + specialize (IH (j_entry r :: seen)). lia.
Qed.

Lemma distinct_from_NoDup_id rows :
  forall seen,
    NoDup (map j_entry rows) ->
    (forall r, In r rows -> ~ In (j_entry r) seen) ->
    distinct_from seen rows = rows.
Proof.
  induction rows as [| r rows IH]; intros seen Hnd Hseen; simpl.
  - reflexivity.
  - inversion Hnd as [| ? ? Hnotin Hnd']; subst.
    destruct (existsb (entry_row_eqb (j_entry r)) seen) eqn:He.
    + apply existsb_entry_row in He. exfalso. apply (Hseen r); [left; reflexivity | exact He].
    + f_equal. apply IH; [exact Hnd' |].
      intros r' Hr' [Heq | Hin].
      * apply Hnotin. rewrite Heq. apply in_map. exact Hr'.
      * apply (Hseen r'); [right; exact Hr' | exact Hin].
Qed.

(** X17: a search without any filter counts the distinct rows of the
    catalogue: its total is at most the [total_entries] of [get_info],
    and equal to it when no two entries agree on all five columns. *)
Theorem unfiltered_search_counts_entries :
  forall (unidecode_table lower_nonascii : N -> str)
         (fts_compile : str -> M (str -> bool)) (cur : cursor)
         (max_results page : Z),
    cur_fault cur = None ->
    exists results cr t cp tp,
      get_search unidecode_table lower_nonascii fts_compile (Some cur)
                 None None None None max_results page
      = inr (build_response None (SearchData results cr t cp tp))
      /\ get_info (Some cur)
         = inr (build_response None
                  (InfoData (Z.of_nat (List.length (tbl_entries (cur_db cur))))))
      /\ 0 <= t <= Z.of_nat (List.length (tbl_entries (cur_db cur)))
      /\ (NoDup (map fst (tbl_entries (cur_db cur))) ->
          t = Z.of_nat (List.length (tbl_entries (cur_db cur)))).
Proof.
  intros tbl low fts cur mr pg Hf.
  set (q := {| join_fts := false; left_join_regions := false; where_clauses := [] |}).
  set (rows := map (fun ef => {| j_entry := fst ef; j_fts := None; j_region := None |})
                   (tbl_entries (cur_db cur))).
  assert (Hbase : select_base fts cur (build_base_query None (or_empty None)
                                                        (or_empty None) None)
                  = inr (distinct rows)).
  { change (build_base_query None (or_empty None) (or_empty None) None) with q.
    unfold select_base. rewrite (execute_ok cur (query_params q) Hf) by reflexivity.
    cbv [bind ret run_base compile_where where_clauses q].
    rewrite from_rows_plain. fold rows.
    rewrite (filter_all (fun _ => true)); [reflexivity |].
    apply Forall_forall. reflexivity. }
  pose proof (get_search_ok tbl low fts cur None None None None mr pg _ Hbase) as Hs.
  simpl in Hs. do 5 eexists. split; [exact Hs |].
  split.
  { unfold get_info. rewrite with_db_open. unfold get_info_body, execute.
    rewrite Hf. reflexivity. }
  assert (Hlen : List.length rows = List.length (tbl_entries (cur_db cur)))
    by (unfold rows; apply length_map).
  split.
  - pose proof (distinct_from_length rows []) as Hle. unfold distinct. lia.
  - intros Hnd. unfold distinct. rewrite distinct_from_NoDup_id.
    + rewrite Hlen. reflexivity.
    + unfold rows. rewrite map_map. simpl. exact Hnd.
    + intros r _ [].
Qed.

Lemma unfiltered_search_counts_entries_witness :
  cur_fault sample_cursor = None
  /\ get_info (Some sample_cursor) = inr (build_response None (InfoData 2))
  /\ exists results cr t cp tp,
      get_search sample_table sample_lower sample_fts (Some sample_cursor)
                 None None None None 100 1
      = inr (build_response None (SearchData results cr t cp tp))
      /\ 0 <= t <= 2.
Proof.
  split; [reflexivity |].
  destruct (unfiltered_search_counts_entries sample_table sample_lower sample_fts
              sample_cursor 100 1 eq_refl)
    as (results & cr & t & cp & tp & Hs & Hi & Ht & _).
  split; [exact Hi |].
  exists results, cr, t, cp, tp. split; [exact Hs | exact Ht].
Defined.

Lemma dict_get_set {V} (k k' : str) (v : V) (d : list (str * V)) :
  dict_get k (dict_set k' v d) = if str_eqb k' k then Some v else dict_get k d.
Proof.
  induction d as [| [a b] d IH]; simpl.
  - reflexivity.
  - destruct (str_eqb a k') eqn:Hak'; simpl.
    + apply str_eqb_eq in Hak'. subst a.
      destruct (str_eqb k' k); reflexivity.
    + rewrite IH. destruct (str_eqb a k) eqn:Hak; [| reflexivity].
      apply str_eqb_eq in Hak. subst a.
      destruct (str_eqb k' k) eqn:E; [| reflexivity].
      apply str_eqb_eq in E. subst k'. rewrite str_eqb_refl in Hak'. discriminate Hak'.
Qed.

Lemma dict_set_keys {V} (k : str) (v : V) (d : list (str * V)) x :
  In x (map fst (dict_set k v d)) <-> x = k \/ In x (map fst d).
Proof.
  induction d as [| [a b] d IH]; simpl.
  - intuition.
  - destruct (str_eqb a k) eqn:Hak; simpl.
    + apply str_eqb_eq in Hak. subst a. intuition.
    + rewrite IH. intuition.
Qed.

Lemma dict_set_NoDup {V} (k : str) (v : V) (d : list (str * V)) :
  NoDup (map fst d) -> NoDup (map fst (dict_set k v d)).
Proof.
  induction d as [| [a b] d IH]; simpl; intros H.
  - constructor; [intros [] | constructor].
  - inversion H as [| ? ? Hnotin Hnd]; subst.
    destruct (str_eqb a k) eqn:Hak; simpl.
    + constructor; assumption.
    + constructor; [| apply IH; exact Hnd].
      intros Hin. apply dict_set_keys in Hin. destruct Hin as [-> | Hin].
      * rewrite str_eqb_refl in Hak. discriminate Hak.
      * contradiction.
Qed.

(** A dict built row by row has each key once and holds for each key the
    value of the last row with that key. *)
Lemma dict_build {V} (rows : list (str * V)) :
  forall d0,
    NoDup (map fst d0) ->
    let d := fold_left (fun d row => dict_set (fst row) (snd row) d) rows d0 in
    NoDup (map fst d)
    /\ forall k, dict_get k d = match last_with k rows with
                                | Some v => Some v
                                | None => dict_get k d0
                                end.
Proof.
  induction rows as [| [k' v] rows IH]; intros d0 Hnd; simpl.
  - split; [exact Hnd | reflexivity].
  - destruct (IH (dict_set k' v d0) (dict_set_NoDup k' v d0 Hnd)) as [H1 H2].
    split; [exact H1 |].
    intros k. rewrite H2, dict_get_set.
    destruct (last_with k rows); [reflexivity |].
    destruct (str_eqb k' k); reflexivity.
Qed.

(** X18: with the database working, [get_platforms] and [get_regions]
    answer with a dict that has every id once and gives, for each id, the
    fields of the last row of the table with that id (and nothing for an
    id that no row has). *)
Theorem lookup_tables_last_row_wins :
  forall cur : cursor,
    cur_fault cur = None ->
    (exists d,
        get_platforms (Some cur) = inr (build_response None (PlatformsData d))
        /\ NoDup (map fst d)
        /\ forall id, dict_get id d = last_with id (tbl_platforms (cur_db cur)))
    /\ (exists d,
           get_regions (Some cur) = inr (build_response None (RegionsData d))
           /\ NoDup (map fst d)
           /\ forall id, dict_get id d = last_with id (tbl_regions (cur_db cur))).
Proof.
  intros cur Hf. split.
  - destruct (dict_build (tbl_platforms (cur_db cur)) [] ltac:(constructor))
      as [Hnd Hget].
    eexists. split.
    { unfold get_platforms. rewrite with_db_open.
      unfold get_platforms_body, execute. rewrite Hf. reflexivity. }
    split; [exact Hnd |].
    intros id. rewrite Hget. destruct (last_with id _); reflexivity.
  - destruct (dict_build (tbl_regions (cur_db cur)) [] ltac:(constructor))
      as [Hnd Hget].
    eexists. split.
    { unfold get_regions. rewrite with_db_open.
      unfold get_regions_body, execute. rewrite Hf. reflexivity. }
    split; [exact Hnd |].
    intros id. rewrite Hget. destruct (last_with id _); reflexivity.
Qed.

Lemma lookup_tables_last_row_wins_witness :
  cur_fault sample_cursor = None
  /\ exists d,
      get_regions (Some sample_cursor) = inr (build_response None (RegionsData d))
      /\ dict_get (py "EU") d = last_with (py "EU") (tbl_regions sample_db).
Proof.
  split; [reflexivity |].
  destruct (proj2 (lookup_tables_last_row_wins sample_cursor eq_refl))
    as (d & Hd & _ & Hget).
  exists d. split; [exact Hd | apply Hget].
Defined.

Lemma replace_invalid_chars_removes_all_witness :
  In 97%N (replace_invalid_chars (py "a+b&c"))
  /\ ~ In 97%N (map fst invalid_chars).
Proof.
  assert (Hin : In 97%N (replace_invalid_chars (py "a+b&c")))
    by (vm_compute; left; reflexivity).
  split; [exact Hin |].
  exact (replace_invalid_chars_removes_all (py "a+b&c") 97%N Hin).
Defined.

Lemma create_db_search_key_charset_witness :
  In 112%N (create_db_search_key sample_table sample_lower pokemon_title)
  /\ PyStr.is_lower_alnum 112 = true.
Proof.
  assert (Hin : In 112%N (create_db_search_key sample_table sample_lower pokemon_title))
    by (vm_compute; left; reflexivity).
  split; [exact Hin |].
  exact (proj1 (proj2 (create_db_search_key_charset
                         sample_table sample_lower pokemon_title 112%N) Hin)).
Defined.

(** ** Search: the clamped inputs *)


